(** * Question resource handlers (server/api/question/question.controller.js)

  A shallow embedding of the controller: JSON documents, lodash's merge,
  the calls made on the response object, the document store with its
  Mongo-style queries and modifiers, and the fourteen handlers written over
  a small state-and-exception monad. *)

From Stdlib Require Import List String Ascii ZArith Lia Bool Arith.
From Stdlib Require Import Permutation Sorted DecimalString.
Import ListNotations.
Open Scope string_scope.


(* ================================================================== *)
(** ** JSON values as the handlers see them *)

Module Json.

(** [VNull] stands for both [null] and [undefined]. *)
#[local] Unset Elimination Schemes.
Inductive Value : Type :=
| VNull
| VBool (b : bool)
| VNum (n : Z)
| VStr (s : string)
| VArr (items : list Value)
| VObj (fields : list (string * Value)).

#[local] Set Elimination Schemes.

Definition Fields := list (string * Value).

Section ValueInd.
Variable P : Value -> Prop.
Hypothesis HNull : P VNull.
Hypothesis HBool : forall b, P (VBool b).
Hypothesis HNum : forall n, P (VNum n).
Hypothesis HStr : forall s, P (VStr s).
Hypothesis HArr : forall l, Forall P l -> P (VArr l).
Hypothesis HObj : forall fs, Forall (fun kv => P (snd kv)) fs -> P (VObj fs).

Fixpoint Value_nested_ind (v : Value) : P v :=
  match v with
  | VNull => HNull
  | VBool b => HBool b
  | VNum n => HNum n
  | VStr s => HStr s
  | VArr l =>
      HArr l ((fix go (l : list Value) : Forall P l :=
               match l with
               | [] => Forall_nil _
               | x :: r => Forall_cons x (Value_nested_ind x) (go r)
               end) l)
  | VObj fs =>
      HObj fs ((fix go (fs : Fields) : Forall (fun kv => P (snd kv)) fs :=
               match fs with
               | [] => Forall_nil _
               | kv :: r =>
                   Forall_cons (P := fun kv => P (snd kv)) kv
                     (Value_nested_ind (snd kv)) (go r)
               end) fs)
  end.
End ValueInd.

(** Structural equality, the comparison the store uses on values. *)
Fixpoint value_eqb (a b : Value) {struct a} : bool :=
  match a, b with
  | VNull, VNull => true
  | VBool x, VBool y => Bool.eqb x y
  | VNum x, VNum y => Z.eqb x y
  | VStr x, VStr y => String.eqb x y
  | VArr xs, VArr ys =>
      (fix go (xs ys : list Value) {struct xs} : bool :=
         match xs, ys with
         | [], [] => true
         | x :: xr, y :: yr => value_eqb x y && go xr yr
         | _, _ => false
         end) xs ys
  | VObj xs, VObj ys =>
      (fix go (xs ys : Fields) {struct xs} : bool :=
         match xs, ys with
         | [], [] => true
         | (k, x) :: xr, (l, y) :: yr =>
             String.eqb k l && value_eqb x y && go xr yr
         | _, _ => false
         end) xs ys
  | _, _ => false
  end.

(** Property read on an object: first field with that name. *)
Fixpoint lookup (k : string) (fs : Fields) : option Value :=
  match fs with
  | [] => None
  | (k', v) :: r => if String.eqb k k' then Some v else lookup k r
  end.

(** [obj[k] = v]: overwrite in place when the key exists, append otherwise. *)
Fixpoint obj_set (k : string) (v : Value) (fs : Fields) : Fields :=
  match fs with
  | [] => [(k, v)]
  | (k', x) :: r =>
      if String.eqb k k' then (k', v) :: r else (k', x) :: obj_set k v r
  end.

(** [delete obj[k]]. *)
Fixpoint obj_del (k : string) (fs : Fields) : Fields :=
  match fs with
  | [] => []
  | (k', x) :: r =>
      if String.eqb k k' then obj_del k r else (k', x) :: obj_del k r
  end.

Definition keys (fs : Fields) : list string := map fst fs.

(** JavaScript truthiness ([if (x)]). *)
Definition truthy (v : Value) : bool :=
  match v with
  | VNull => false
  | VBool b => b
  | VNum n => negb (Z.eqb n 0)
  | VStr s => negb (String.eqb s EmptyString)
  | VArr _ | VObj _ => true
  end.

(** [obj.k] on a value that is known to be an object's field list:
    a missing property reads as undefined. *)
Definition field (k : string) (fs : Fields) : Value :=
  match lookup k fs with Some v => v | None => VNull end.

(** [v.k]: a TypeError ([None]) on null and undefined, the field on an
    object, undefined on anything else (the handlers read no [length]). *)
Definition prop (k : string) (v : Value) : option Value :=
  match v with
  | VNull => None
  | VObj fs => Some (field k fs)
  | _ => Some VNull
  end.

Definition string_of_Z (z : Z) : string := NilZero.string_of_int (Z.to_int z).
Definition string_of_nat (n : nat) : string :=
  NilZero.string_of_uint (Nat.to_uint n).

(** [v.toString()]: a TypeError ([None]) on null and undefined. *)
Fixpoint toString (v : Value) : option string :=
  match v with
  | VNull => None
  | VBool true => Some "true"
  | VBool false => Some "false"
  | VNum n => Some (string_of_Z n)
  | VStr s => Some s
  | VArr l =>
      Some ((fix join (l : list Value) : string :=
               match l with
               | [] => EmptyString
               | x :: r =>
                   let sx := match toString x with Some s => s | None => EmptyString end in
                   match r with
                   | [] => sx
                   | _ => sx ++ "," ++ join r
                   end
               end) l)
  | VObj _ => Some "[object Object]"
  end.

End Json.
Import Json.

(* ================================================================== *)
(** ** lodash *)

Module Lodash.

(** Modelled from the spec: lodash is not part of the controller; the spec
    has the update merge the payload into the stored document, provided
    fields overwriting and the others being retained, shallow and deep.
    [_.merge(dst, src)]: own fields of [src] are merged into [dst]
    recursively; objects merge field by field, arrays index by index, and any
    other source value is assigned as it is.  A destination that is not of
    the source's kind is replaced by an empty container of that kind first. *)
Fixpoint merge (dst src : Value) {struct src} : Value :=
  match src with
  | VObj sfs =>
      VObj ((fix go (sfs acc : Fields) {struct sfs} : Fields :=
               match sfs with
               | [] => acc
               | (k, sv) :: r => go r (obj_set k (merge (field k acc) sv) acc)
               end) sfs (match dst with VObj d => d | _ => [] end))
  | VArr sl =>
      VArr ((fix go (sl dl : list Value) {struct sl} : list Value :=
               match sl with
               | [] => dl
               | sv :: r =>
                   match dl with
                   | [] => merge VNull sv :: go r []
                   | dv :: dr => merge dv sv :: go r dr
                   end
               end) sl (match dst with VArr d => d | _ => [] end))
  | _ => src
  end.

(** The field-by-field loop of [merge] on objects, named for the proofs. *)
Fixpoint merge_fields (sfs acc : Fields) : Fields :=
  match sfs with
  | [] => acc
  | (k, sv) :: r => merge_fields r (obj_set k (merge (field k acc) sv) acc)
  end.

End Lodash.
Import Lodash.

(* ================================================================== *)
(** ** The response object *)

Module Express.

(** The calls a handler makes on [res], in the order it makes them. *)
Inductive ResCall : Type :=
| RStatus (code : Z)      (* res.status(code) *)
| RSend (payload : Value) (* res.send(payload) *)
| RJson (payload : Value) (* res.json(payload) *)
| REnd.                   (* res.end() *)

Record Response : Type := mkResponse {
  statusCode : Z;
  content : option Value;
  finished : bool
}.

Definition fresh_response : Response :=
  {| statusCode := 200; content := None; finished := false |}.

(** Modelled from the spec: the response library is not part of the
    controller.  The spec describes [status] followed by [end] as the call
    that sets a status on an empty response, and a bare [send] of a status
    number as a malformed call that does not set the status: [send] and
    [json] put their argument in the body and finish the response, [status]
    sets the status code, [end] finishes the response without a body, and a
    finished response is not changed by later calls. *)
Definition res_step (r : Response) (c : ResCall) : Response :=
  if finished r then r
  else match c with
       | RStatus code =>
           {| statusCode := code; content := content r; finished := false |}
       | RSend v | RJson v =>
           {| statusCode := statusCode r; content := Some v; finished := true |}
       | REnd =>
           {| statusCode := statusCode r; content := content r; finished := true |}
       end.

Definition response_of (cs : list ResCall) : Response :=
  fold_left res_step cs fresh_response.

End Express.
Import Express.

(* ================================================================== *)
(** ** Queries and modifiers of the document store *)

Module Mongo.

(** A dotted field path: ['answers.$.content'] is
    [[Key "answers"; Pos; Key "content"]] and ['answers.' + i + '.comments._id']
    is [[Key "answers"; Idx i; Key "comments"; Key "_id"]]. *)
Inductive Seg : Type :=
| Key (k : string)
| Idx (i : nat)
| Pos.

Definition Path := list Seg.

(** A query document: every path must hold the given value. *)
Definition Query := list (Path * Value).

Inductive Modifier : Type :=
| MSet (p : Path) (v : Value)        (* { p: v }, a $set *)
| MPush (p : Path) (v : Value)       (* { $push: { p: v } } *)
| MPull (p : Path) (cond : Query).   (* { $pull: { p: cond } } *)

(** Which array condition of a query fixes the positional operator when
    several conditions cross an array: the store leaves it open, so it is
    part of the store's configuration. *)
Inductive PosRule : Type := FirstArrayCondition | LastArrayCondition.

Fixpoint indexed {A : Type} (i : nat) (l : list A) : list (nat * A) :=
  match l with
  | [] => []
  | x :: r => (i, x) :: indexed (S i) r
  end.

(** Modelled from the spec: the document store client is not part of the
    controller; the spec gives it Mongo-style query semantics over dotted
    field paths.  [reach p v] lists the values found at path [p] in [v]: a
    field name on an object descends into the field, a field name on an array
    descends into that field of every element that is an object, an index
    selects one element.  Each value comes with the index of the array element
    it was found through, when the path crossed an array by a field name. *)
Fixpoint reach (p : Path) (v : Value) : list (option nat * Value) :=
  match p with
  | [] => [(None, v)]
  | Key k :: r =>
      match v with
      | VObj fs =>
          match lookup k fs with
          | Some x => reach r x
          | None => []
          end
      | VArr items =>
          flat_map
            (fun ix : nat * Value =>
               match snd ix with
               | VObj fs =>
                   match lookup k fs with
                   | Some x => map (fun ox => (Some (fst ix), snd ox)) (reach r x)
                   | None => []
                   end
               | _ => []
               end)
            (indexed 0 items)
      | _ => []
      end
  | Idx i :: r =>
      match v with
      | VArr items =>
          match nth_error items i with
          | Some x => reach r x
          | None => []
          end
      | _ => []
      end
  | Pos :: _ => []
  end.

(** Modelled from the spec: Mongo-style queries.  [hits c d] lists the array
    positions through which condition [c] holds in [d]; the condition holds
    when there is at least one hit. *)
Definition hits (c : Path * Value) (d : Value) : list (option nat) :=
  map fst (filter (fun ox => value_eqb (snd ox) (snd c)) (reach (fst c) d)).

Definition holds (c : Path * Value) (d : Value) : bool :=
  match hits c d with
  | [] => false
  | _ :: _ => true
  end.

(** Modelled from the spec: Mongo-style queries.  A document matches a
    query when every condition holds; conditions on the same array are
    satisfied independently of one another. *)
Definition matches (q : Query) (d : Value) : bool :=
  forallb (fun c => holds c d) q.

Fixpoint first_some {A : Type} (l : list (option A)) : option A :=
  match l with
  | [] => None
  | Some x :: _ => Some x
  | None :: r => first_some r
  end.

(** Modelled from the spec: the positional operator of the store.  The
    array index [$] stands for is the first hit of the first (or last)
    condition that crossed an array. *)
Definition positional (rule : PosRule) (q : Query) (d : Value) : option nat :=
  let firsts := map (fun c => hd None (hits c d)) q in
  match rule with
  | FirstArrayCondition => first_some firsts
  | LastArrayCondition => first_some (rev firsts)
  end.

Fixpoint set_nth (n : nat) (x : Value) (l : list Value) : list Value :=
  match l, n with
  | [], _ => []
  | _ :: r, O => x :: r
  | y :: r, S m => y :: set_nth m x r
  end.

(** Modelled from the spec: dotted field paths in modifiers.
    [alter p pos f v] rewrites the value at path [p] of [v]: [f] receives the
    value at the last segment ([None] when that field is missing) and returns
    the new one ([Some None] leaves a missing field missing, [None] is a write
    error).  [Pos] is replaced by [pos]; a missing or unsuitable value on the
    way, or [Pos] without a matched position, is a write error. *)
Fixpoint alter (p : Path) (pos : option nat)
    (f : option Value -> option (option Value)) (v : Value) : option Value :=
  match p with
  | [] => None
  | s :: r =>
      let inner (old : option Value) : option (option Value) :=
        match r with
        | [] => f old
        | _ :: _ =>
            match old with
            | Some x => option_map Some (alter r pos f x)
            | None => None
            end
        end in
      let at_index (i : nat) : option Value :=
        match v with
        | VArr items =>
            match nth_error items i with
            | Some x =>
                match inner (Some x) with
                | Some (Some y) => Some (VArr (set_nth i y items))
                | _ => None
                end
            | None => None
            end
        | _ => None
        end in
      match s with
      | Key k =>
          match v with
          | VObj fs =>
              match inner (lookup k fs) with
              | Some (Some y) => Some (VObj (obj_set k y fs))
              | Some None => Some v
              | None => None
              end
          | _ => None
          end
      | Idx i => at_index i
      | Pos =>
          match pos with
          | Some i => at_index i
          | None => None
          end
      end
  end.

(** Modelled from the spec: [$set], [$push], [$pull] of the store, that is
    what each modifier does to the value at its path.  [$push] appends, creating
    the array when the field is missing; [$pull] drops every element that
    matches its condition, taken as a query on the element. *)
Definition modifier_path (m : Modifier) : Path :=
  match m with MSet p _ | MPush p _ | MPull p _ => p end.

Definition modifier_action (m : Modifier) (old : option Value)
  : option (option Value) :=
  match m with
  | MSet _ v => Some (Some v)
  | MPush _ v =>
      match old with
      | None => Some (Some (VArr [v]))
      | Some (VArr items) => Some (Some (VArr (items ++ [v])))
      | Some _ => None
      end
  | MPull _ cond =>
      match old with
      | None => Some None
      | Some (VArr items) =>
          Some (Some (VArr (filter (fun e => negb (matches cond e)) items)))
      | Some _ => None
      end
  end.

Definition apply_modifier (pos : option nat) (m : Modifier) (d : Value)
  : option Value :=
  alter (modifier_path m) pos (modifier_action m) d.

Fixpoint apply_modifiers (pos : option nat) (ms : list Modifier) (d : Value)
  : option Value :=
  match ms with
  | [] => Some d
  | m :: r =>
      match apply_modifier pos m d with
      | Some d' => apply_modifiers pos r d'
      | None => None
      end
  end.

(** Modelled from the spec: the store's update.  The first document that
    matches is updated; the result is the new collection and the
    number of documents matched (0 or 1), or [None] on a write error. *)
Fixpoint update_first (rule : PosRule) (q : Query) (ms : list Modifier)
    (ds : list Value) : option (list Value * nat) :=
  match ds with
  | [] => Some ([], 0%nat)
  | d :: r =>
      if matches q d then
        match apply_modifiers (positional rule q d) ms d with
        | Some d' => Some (d' :: r, 1%nat)
        | None => None
        end
      else
        match update_first rule q ms r with
        | Some (r', n) => Some (d :: r', n)
        | None => None
        end
  end.

Definition by_id (id : string) : Query := [([Key "_id"], VStr id)].

(** Replace, or drop, the first document with the given [_id]. *)
Fixpoint replace_first (p : Value -> bool) (d' : Value) (ds : list Value)
  : list Value :=
  match ds with
  | [] => []
  | d :: r => if p d then d' :: r else d :: replace_first p d' r
  end.

Fixpoint remove_first (p : Value -> bool) (ds : list Value) : list Value :=
  match ds with
  | [] => []
  | d :: r => if p d then r else d :: remove_first p r
  end.

(** Sort key of [createdAt]: a number, or nothing (sorted below every
    number). *)
Definition created (d : Value) : option Z :=
  match d with
  | VObj fs =>
      match lookup "createdAt" fs with
      | Some (VNum n) => Some n
      | _ => None
      end
  | _ => None
  end.

Definition key_leb (a b : option Z) : bool :=
  match a, b with
  | None, _ => true
  | Some _, None => false
  | Some x, Some y => Z.leb x y
  end.

(** Modelled from the spec: the store's sort.  [sort({ createdAt: -1 })],
    a stable insertion sort, newest first. *)
Fixpoint insert_desc (d : Value) (l : list Value) : list Value :=
  match l with
  | [] => [d]
  | x :: r =>
      if key_leb (created x) (created d) then d :: x :: r
      else x :: insert_desc d r
  end.

Fixpoint sort_desc (l : list Value) : list Value :=
  match l with
  | [] => []
  | d :: r => insert_desc d (sort_desc r)
  end.

End Mongo.
Import Mongo.

(* ================================================================== *)
(** ** The world a handler runs in *)

Module World.

(** The calls a handler issues on the [Question] model. *)
Inductive StoreCall : Type :=
| CList                                    (* find().sort().limit(20).execAsync() *)
| CFindById (id : string)                  (* findByIdAsync(id) *)
| CFind (q : Query)                        (* find(q).exec(cb) *)
| CCreate (doc : Value)                    (* create(doc) *)
| CSave (doc : Value)                      (* doc.saveAsync() *)
| CRemove (doc : Value)                    (* doc.removeAsync() *)
| CUpdate (q : Query) (ms : list Modifier). (* update(q, ms, cb) *)

Definition is_write (c : StoreCall) : bool :=
  match c with
  | CCreate _ | CSave _ | CRemove _ | CUpdate _ _ => true
  | CList | CFindById _ | CFind _ => false
  end.

(** [docs]: the questions collection, in insertion order.
    [faults]: what the store will answer to the coming calls, one entry per
    call: [Some e] fails that call with error [e], [None] (or no entry) lets
    it through.
    [calls], [sent]: the store calls and the response calls made so far. *)
Record State : Type := mkState {
  docs : list Value;
  faults : list (option Value);
  next_id : nat;
  rule : PosRule;
  calls : list StoreCall;
  sent : list ResCall
}.

(** A computation either returns or throws (a rejected promise, an
    exception), and threads the state. *)
Definition M (A : Type) : Type := State -> State * (Value + A).

Definition ret {A : Type} (a : A) : M A := fun st => (st, inr a).

Definition throw {A : Type} (e : Value) : M A := fun st => (st, inl e).

Definition bind {A B : Type} (m : M A) (k : A -> M B) : M B :=
  fun st =>
    match m st with
    | (st', inr a) => k a st'
    | (st', inl e) => (st', inl e)
    end.

(** [.catch(h)] *)
Definition catch {A : Type} (m : M A) (h : Value -> M A) : M A :=
  fun st =>
    match m st with
    | (st', inr a) => (st', inr a)
    | (st', inl e) => h e st'
    end.

(** A node-style callback receives the error or the result. *)
Definition attempt {A : Type} (m : M A) : M (Value + A) :=
  fun st => let (st', r) := m st in (st', inr r).

Definition set_docs (ds : list Value) (st : State) : State :=
  {| docs := ds; faults := faults st; next_id := next_id st; rule := rule st;
     calls := calls st; sent := sent st |}.

Definition TypeError : Value := VStr "TypeError".
Definition DuplicateKey : Value := VStr "E11000 duplicate key".
Definition WriteError : Value := VStr "WriteError".

End World.
Import World.

Declare Scope handler_scope.
Delimit Scope handler_scope with handler.
Notation "x <- c ;; k" := (bind c (fun x => k))
  (at level 61, c at next level, right associativity) : handler_scope.
Notation "c ;; k" := (bind c (fun _ => k))
  (at level 61, right associativity) : handler_scope.
Open Scope handler_scope.

Module Res.

Definition call (c : ResCall) : M unit :=
  fun st =>
    ({| docs := docs st; faults := faults st; next_id := next_id st;
        rule := rule st; calls := calls st; sent := sent st ++ [c] |}, inr tt).

Definition status (code : Z) : M unit := call (RStatus code).
Definition send (v : Value) : M unit := call (RSend v).
Definition json (v : Value) : M unit := call (RJson v).
Definition end_ : M unit := call REnd.

End Res.

Module Question.

Definition log (c : StoreCall) : M unit :=
  fun st =>
    ({| docs := docs st; faults := faults st; next_id := next_id st;
        rule := rule st; calls := calls st ++ [c]; sent := sent st |}, inr tt).

(** Every call consumes one entry of the fault schedule. *)
Definition tick : M unit :=
  fun st =>
    match faults st with
    | [] => (st, inr tt)
    | o :: r =>
        let st' := {| docs := docs st; faults := r; next_id := next_id st;
                      rule := rule st; calls := calls st; sent := sent st |} in
        match o with
        | Some e => (st', inl e)
        | None => (st', inr tt)
        end
    end.

Definition get_docs : M (list Value) := fun st => (st, inr (docs st)).
Definition put_docs (ds : list Value) : M unit :=
  fun st => (set_docs ds st, inr tt).

Definition has_id (id : Value) (d : Value) : bool :=
  matches [([Key "_id"], id)] d.

Definition doc_id (d : Value) : Value :=
  match d with VObj fs => field "_id" fs | _ => VNull end.

(** Modelled from the spec: the store client, like the calls below.
    [Question.find().sort({ createdAt: -1 }).limit(20).execAsync()] *)
Definition list_recent : M Value :=
  log CList ;; tick ;;
  ds <- get_docs ;;
  ret (VArr (firstn 20 (sort_desc ds))).

(** Modelled from the spec: [Question.findByIdAsync(id)], the first document
    with that [_id], or null. *)
Definition findByIdAsync (id : string) : M Value :=
  log (CFindById id) ;; tick ;;
  ds <- get_docs ;;
  ret (match find (matches (by_id id)) ds with
       | Some d => d
       | None => VNull
       end).

(** Modelled from the spec: [Question.find(q).exec(cb)], every document that
    matches. *)
Definition find_all (q : Query) : M (list Value) :=
  log (CFind q) ;; tick ;;
  ds <- get_docs ;;
  ret (filter (matches q) ds).

(** Modelled from the spec: [Question.create(body)]; the store assigns an
    identifier when the document brings none, and refuses an identifier
    already in use. *)
Definition create (body : Fields) : M Value :=
  log (CCreate (VObj body)) ;; tick ;;
  fun st =>
    let doc :=
      match field "_id" body with
      | VNull =>
          VObj (("_id", VStr ("q" ++ string_of_nat (next_id st)))
                  :: obj_del "_id" body)
      | _ => VObj body
      end in
    if existsb (has_id (doc_id doc)) (docs st) then (st, inl DuplicateKey)
    else
      ({| docs := docs st ++ [doc]; faults := faults st;
          next_id := S (next_id st); rule := rule st;
          calls := calls st; sent := sent st |}, inr doc).

(** Modelled from the spec: [entity.saveAsync().spread(updated => updated)]
    persists the document in the place of the stored one with its [_id]. *)
Definition saveAsync (entity : Value) : M Value :=
  log (CSave entity) ;; tick ;;
  ds <- get_docs ;;
  put_docs (replace_first (has_id (doc_id entity)) entity ds) ;;
  ret entity.

(** Modelled from the spec: [entity.removeAsync()] deletes the stored
    document with the entity's [_id]. *)
Definition removeAsync (entity : Value) : M unit :=
  log (CRemove entity) ;; tick ;;
  ds <- get_docs ;;
  put_docs (remove_first (has_id (doc_id entity)) ds).

(** Modelled from the spec: [Question.update(q, ms, cb)] hands the callback
    the number of documents matched. *)
Definition update (q : Query) (ms : list Modifier) : M nat :=
  log (CUpdate q ms) ;; tick ;;
  fun st =>
    match update_first (rule st) q ms (docs st) with
    | Some (ds, n) => (set_docs ds st, inr n)
    | None => (st, inl WriteError)
    end.

End Question.

(* ================================================================== *)
(** ** The controller *)

Module Controller.

(** The authenticated user the middleware puts on the request: [req.user._id]
    and [req.user.id] both denote [u_id]. *)
Record User : Type := mkUser {
  u_id : string;
  u_profile : Fields
}.

Definition user_doc (u : User) : Value :=
  VObj (("_id", VStr (u_id u)) :: u_profile u).

Record Request : Type := mkRequest {
  params_id : string;
  params_answerId : string;
  params_commentId : string;
  body : Fields;
  user : User
}.

Definition with_body (req : Request) (b : Fields) : Request :=
  {| params_id := params_id req; params_answerId := params_answerId req;
     params_commentId := params_commentId req; body := b; user := user req |}.

(** [v.k] and [v.toString()] as computations: they throw a TypeError on null
    and undefined. *)
Definition get_prop (k : string) (v : Value) : M Value :=
  match prop k v with
  | Some x => ret x
  | None => throw TypeError
  end.

Definition to_string (v : Value) : M string :=
  match toString v with
  | Some s => ret s
  | None => throw TypeError
  end.

(** [statusCode || 200] *)
Definition or_default (statusCode : option Z) (d : Z) : Z :=
  match statusCode with
  | Some c => if Z.eqb c 0 then d else c
  | None => d
  end.

Definition respondWithResult (statusCode : option Z) (entity : Value) : M Value :=
  let statusCode := or_default statusCode 200 in
  if truthy entity then
    Res.status statusCode ;; Res.json entity ;; ret VNull
  else ret VNull.

Definition saveUpdates (updates : Fields) (entity : Value) : M Value :=
  match entity with
  | VObj _ =>
      let updated := merge entity (VObj updates) in
      Question.saveAsync updated
  | _ => throw TypeError
  end.

Definition removeEntity (entity : Value) : M Value :=
  if truthy entity then
    Question.removeAsync entity ;;
    Res.status 204 ;; Res.end_ ;; ret VNull
  else ret VNull.

Definition handleEntityNotFound (entity : Value) : M Value :=
  if negb (truthy entity) then
    Res.status 404 ;; Res.end_ ;; ret VNull
  else ret entity.

Definition handleError (statusCode : option Z) (err : Value) : M Value :=
  let statusCode := or_default statusCode 500 in
  Res.status statusCode ;; Res.send err ;; ret VNull.

Definition handleUnauthorized (req : Request) (entity : Value) : M Value :=
  if negb (truthy entity) then ret VNull
  else
    owner <- (u <- get_prop "user" entity ;;
              i <- get_prop "_id" u ;; to_string i) ;;
    if negb (String.eqb owner (u_id (user req))) then
      Res.send (VNum 403) ;; Res.end_ ;; ret VNull
    else ret entity.

Definition index (req : Request) : M Value :=
  catch (entities <- Question.list_recent ;;
         respondWithResult None entities)
        (handleError None).

Definition show (req : Request) : M Value :=
  catch (entity <- Question.findByIdAsync (params_id req) ;;
         entity <- handleEntityNotFound entity ;;
         respondWithResult None entity)
        (handleError None).

Definition create (req : Request) : M Value :=
  let body := obj_set "user" (user_doc (user req)) (body req) in
  catch (entity <- Question.create body ;;
         respondWithResult (Some 201%Z) entity)
        (handleError None).

(** [if (req.body._id) { delete req.body._id }] *)
Definition strip_id (body : Fields) : Fields :=
  if truthy (field "_id" body) then obj_del "_id" body else body.

Definition update (req : Request) : M Value :=
  let body := strip_id (body req) in
  catch (entity <- Question.findByIdAsync (params_id req) ;;
         entity <- handleEntityNotFound entity ;;
         entity <- handleUnauthorized req entity ;;
         entity <- saveUpdates body entity ;;
         respondWithResult None entity)
        (handleError None).

Definition destroy (req : Request) : M Value :=
  catch (entity <- Question.findByIdAsync (params_id req) ;;
         entity <- handleEntityNotFound entity ;;
         entity <- handleUnauthorized req entity ;;
         removeEntity entity)
        (handleError None).

(** The callback every nested handler passes to [Question.update]. *)
Definition after_update (req : Request) (r : Value + nat) : M Value :=
  match r with
  | inl err => handleError None err
  | inr num =>
      if Nat.eqb num 0 then Res.send (VNum 404) ;; Res.end_ ;; ret VNull
      else show req
  end.

Definition uid (req : Request) : Value := VStr (u_id (user req)).

Definition createAnswer (req : Request) : M Value :=
  let req := with_body req (obj_set "user" (user_doc (user req)) (body req)) in
  r <- attempt (Question.update
                  [([Key "_id"], VStr (params_id req))]
                  [MPush [Key "answers"] (VObj (body req))]) ;;
  after_update req r.

Definition updateAnswer (req : Request) : M Value :=
  r <- attempt (Question.update
                  [([Key "_id"], VStr (params_id req));
                   ([Key "answers"; Key "_id"], VStr (params_answerId req))]
                  [MSet [Key "answers"; Pos; Key "content"]
                        (field "content" (body req));
                   MSet [Key "answers"; Pos; Key "user"] (uid req)]) ;;
  after_update req r.

Definition destroyAnswer (req : Request) : M Value :=
  r <- attempt (Question.update
                  [([Key "_id"], VStr (params_id req))]
                  [MPull [Key "answers"]
                         [([Key "_id"], VStr (params_answerId req));
                          ([Key "user"], uid req)]]) ;;
  after_update req r.

Definition createComment (req : Request) : M Value :=
  let req := with_body req (obj_set "user" (uid req) (body req)) in
  r <- attempt (Question.update
                  [([Key "_id"], VStr (params_id req))]
                  [MPush [Key "comments"] (VObj (body req))]) ;;
  after_update req r.

Definition destroyComment (req : Request) : M Value :=
  r <- attempt (Question.update
                  [([Key "_id"], VStr (params_id req))]
                  [MPull [Key "comments"]
                         [([Key "_id"], VStr (params_commentId req));
                          ([Key "user"], uid req)]]) ;;
  after_update req r.

Definition updateComment (req : Request) : M Value :=
  r <- attempt (Question.update
                  [([Key "_id"], VStr (params_id req));
                   ([Key "comments"; Key "_id"], VStr (params_commentId req))]
                  [MSet [Key "comments"; Pos; Key "content"]
                        (field "content" (body req));
                   MSet [Key "comments"; Pos; Key "user"] (uid req)]) ;;
  after_update req r.

Definition createAnswerComment (req : Request) : M Value :=
  let req := with_body req (obj_set "user" (uid req) (body req)) in
  r <- attempt (Question.update
                  [([Key "_id"], VStr (params_id req));
                   ([Key "answers"; Key "_id"], VStr (params_answerId req))]
                  [MPush [Key "answers"; Pos; Key "comments"]
                         (VObj (body req))]) ;;
  after_update req r.

Definition destroyAnswerComment (req : Request) : M Value :=
  r <- attempt (Question.update
                  [([Key "_id"], VStr (params_id req));
                   ([Key "answers"; Key "_id"], VStr (params_answerId req))]
                  [MPull [Key "answers"; Pos; Key "comments"]
                         [([Key "_id"], VStr (params_commentId req));
                          ([Key "user"], uid req)]]) ;;
  after_update req r.

(** The conditions and the document [updateAnswerComment] builds for the
    answer at position [i]. *)
Definition comment_conditions (req : Request) (i : nat) : Query :=
  [([Key "_id"], VStr (params_id req));
   ([Key "answers"; Idx i; Key "comments"; Key "_id"],
    VStr (params_commentId req));
   ([Key "answers"; Idx i; Key "comments"; Key "user"], uid req)].

Definition comment_doc (req : Request) (i : nat) : list Modifier :=
  [MSet [Key "answers"; Idx i; Key "comments"; Pos; Key "content"]
        (field "content" (body req))].

(** [question.answers] as the loop walks it: an array gives its elements, a
    string its characters, null and undefined throw on [.length], anything
    else has no [length] and the loop body never runs. *)
Definition elements (v : Value) : M (list Value) :=
  match v with
  | VNull => throw TypeError
  | VArr items => ret items
  | VStr s => ret (map (fun c => VStr (String c EmptyString)) (list_ascii_of_string s))
  | _ => ret []
  end.

(** The [for] loop: it issues one update per answer whose id matches and
    does not stop at the first; the store answers each in turn, and the
    callbacks run once the loop and [if (!found)] are done. *)
Fixpoint scan (req : Request) (i : nat) (answers : list Value)
  : M (bool * list (Value + nat)) :=
  match answers with
  | [] => ret (false, [])
  | a :: rest =>
      s <- (x <- get_prop "_id" a ;; to_string x) ;;
      if String.eqb s (params_answerId req) then
        r <- attempt (Question.update (comment_conditions req i)
                                      (comment_doc req i)) ;;
        fr <- scan req (S i) rest ;;
        ret (true, r :: snd fr)
      else scan req (S i) rest
  end.

Fixpoint run_callbacks (req : Request) (rs : list (Value + nat)) : M Value :=
  match rs with
  | [] => ret VNull
  | r :: rest => after_update req r ;; run_callbacks req rest
  end.

Definition updateAnswerComment (req : Request) : M Value :=
  r <- attempt (Question.find_all [([Key "_id"], VStr (params_id req))]) ;;
  match r with
  | inl err => handleError None err
  | inr questions =>
      match questions with
      | [] => Res.send (VNum 404) ;; Res.end_ ;; ret VNull
      | question :: _ =>
          answers <- (a <- get_prop "answers" question ;; elements a) ;;
          fr <- scan req 0 answers ;;
          (if negb (fst fr) then Res.send (VNum 404) ;; Res.end_ ;; ret VNull
           else ret VNull) ;;
          run_callbacks req (snd fr)
      end
  end.

End Controller.
Import Controller.

(* ================================================================== *)
(** ** Vocabulary of the properties *)

Open Scope list_scope.

(** *** Running a handler *)

(** The store answers every coming call. *)
Definition store_up (st : State) : Prop := Forall (fun o => o = None) (faults st).

(** The state after one answered store call [c]. *)
Definition advance (c : StoreCall) (st : State) : State :=
  {| docs := docs st; faults := tl (faults st); next_id := next_id st;
     rule := rule st; calls := calls st ++ [c]; sent := sent st |}.

(** The state after one call [c] on the response. *)
Definition say (c : ResCall) (st : State) : State :=
  {| docs := docs st; faults := faults st; next_id := next_id st;
     rule := rule st; calls := calls st; sent := sent st ++ [c] |}.

(** No stored document matches query [q]. *)
Definition no_match (q : Query) (st : State) : Prop :=
  Forall (fun d => matches q d = false) (docs st).

(** The write calls among the store calls. *)
Definition writes (cs : list StoreCall) : list StoreCall := filter is_write cs.

(** *** What the handlers read *)

(** [entity.user._id.toString()], [None] when it throws. *)
Definition owner_of (entity : Value) : option string :=
  match prop "user" entity with
  | Some u =>
      match prop "_id" u with
      | Some i => toString i
      | None => None
      end
  | None => None
  end.

(** [v._id.toString()], [None] when it throws. *)
Definition id_string (v : Value) : option string :=
  match prop "_id" v with
  | Some x => toString x
  | None => None
  end.

(** A payload value that is neither an object nor an array. *)
Definition is_scalar (v : Value) : bool :=
  match v with
  | VArr _ | VObj _ => false
  | _ => true
  end.

(** An array element that is an object whose [_id] is [eid]. *)
Definition element_has_id (eid : string) (e : Value) : bool :=
  match e with
  | VObj efs =>
      match lookup "_id" efs with
      | Some x => value_eqb x (VStr eid)
      | None => false
      end
  | _ => false
  end.

(** *** What the handlers send to the store *)

(** The shape shared by the conditional-update handlers. *)
Definition conditional (req : Request) (q : Query) (ms : list Modifier) : M Value :=
  r <- attempt (Question.update q ms) ;; after_update req r.

(** The condition of the [$pull] in the delete handlers:
    [{ _id: eid, 'user': req.user._id }]. *)
Definition owned_by (eid : string) (req : Request) : Query :=
  [([Key "_id"], VStr eid); ([Key "user"], uid req)].

(** The query and the document of [updateAnswer] and [updateComment], for the
    array field [arr] and the element id [eid]. *)
Definition element_query (req : Request) (arr eid : string) : Query :=
  [([Key "_id"], VStr (params_id req)); ([Key arr; Key "_id"], VStr eid)].

Definition element_doc (req : Request) (arr : string) : list Modifier :=
  [MSet [Key arr; Pos; Key "content"] (field "content" (body req));
   MSet [Key arr; Pos; Key "user"] (uid req)].

(** The element after such an update. *)
Definition rewritten (req : Request) (efs : Fields) : Fields :=
  obj_set "user" (uid req) (obj_set "content" (field "content" (body req)) efs).

(** The nested handlers that go through one conditional update, each with the
    query it passes to the store. *)
Definition nested_handlers : list ((Request -> M Value) * (Request -> Query)) :=
  [(createAnswer, fun req => [([Key "_id"], VStr (params_id req))]);
   (updateAnswer,
    fun req => [([Key "_id"], VStr (params_id req));
                ([Key "answers"; Key "_id"], VStr (params_answerId req))]);
   (destroyAnswer, fun req => [([Key "_id"], VStr (params_id req))]);
   (createComment, fun req => [([Key "_id"], VStr (params_id req))]);
   (destroyComment, fun req => [([Key "_id"], VStr (params_id req))]);
   (updateComment,
    fun req => [([Key "_id"], VStr (params_id req));
                ([Key "comments"; Key "_id"], VStr (params_commentId req))]);
   (createAnswerComment,
    fun req => [([Key "_id"], VStr (params_id req));
                ([Key "answers"; Key "_id"], VStr (params_answerId req))]);
   (destroyAnswerComment,
    fun req => [([Key "_id"], VStr (params_id req));
                ([Key "answers"; Key "_id"], VStr (params_answerId req))])].

(** *** What the handlers send to the client *)

(** [res.send(403).end()] *)
Definition forbidden_calls : list ResCall := [RSend (VNum 403); REnd].

(** [res.send(404).end()] *)
Definition not_found_sent : list ResCall := [RSend (VNum 404); REnd].

(** [res.status(404).end()] *)
Definition not_found_status : list ResCall := [RStatus 404; REnd].

(** *** Order of creation, as the sort on createdAt reads it *)

Definition newer_or_same (a b : Value) : Prop :=
  key_leb (created b) (created a) = true.

Definition newer (a b : Value) : Prop :=
  key_leb (created a) (created b) = false.

(** *** Sample data *)

(** Two users, and a question of bob's with one answer of bob's; under the
    answer, a comment of bob's and a comment of alice's. *)
Definition alice : User := mkUser "alice" [("name", VStr "Alice")].

Definition bob : User := mkUser "bob" [("name", VStr "Bob")].

Definition c1 : Value :=
  VObj [("_id", VStr "c1"); ("user", VStr "bob"); ("content", VStr "first")].

Definition c2 : Value :=
  VObj [("_id", VStr "c2"); ("user", VStr "alice"); ("content", VStr "second")].

Definition a1 : Value :=
  VObj [("_id", VStr "a1"); ("user", VStr "bob"); ("content", VStr "answer");
        ("comments", VArr [c1; c2])].

Definition q1_fields : Fields :=
  [("_id", VStr "q1"); ("user", user_doc bob); ("title", VStr "title");
   ("createdAt", VNum 5); ("answers", VArr [a1]); ("comments", VArr [c1])].

Definition q1 : Value := VObj q1_fields.

(** The collection holding that question, for a store that takes the
    positional operator from the first or from the last array condition. *)
Definition world (r : PosRule) : State :=
  {| docs := [q1]; faults := []; next_id := 0; rule := r;
     calls := []; sent := [] |}.

(** A request of user [u] with body [b] on question q1, answer a1, comment c1. *)
Definition request (u : User) (b : Fields) : Request :=
  {| params_id := "q1"; params_answerId := "a1"; params_commentId := "c1";
     body := b; user := u |}.

(** The sample question with the comments under its answer replaced. *)
Definition q1_with (cs : list Value) : Value :=
  VObj [("_id", VStr "q1"); ("user", user_doc bob); ("title", VStr "title");
        ("createdAt", VNum 5);
        ("answers",
         VArr [VObj [("_id", VStr "a1"); ("user", VStr "bob");
                     ("content", VStr "answer"); ("comments", VArr cs)]]);
        ("comments", VArr [c1])].

Definition taken_over (cid owner : string) : Value :=
  VObj [("_id", VStr cid); ("user", VStr owner); ("content", VStr "taken over")].

(** Twenty-five questions created at times 1 to 25. *)
Definition stamped (i : nat) : Value :=
  VObj [("_id", VStr ("q" ++ string_of_nat i)%string);
        ("createdAt", VNum (Z.of_nat i))].

Definition crowded : State :=
  {| docs := map stamped (seq 1 25); faults := []; next_id := 26;
     rule := FirstArrayCondition; calls := []; sent := [] |}.

(** *** Sentences of the spec that the code contradicts *)

(** C3 as the spec states it: with no answer of that id in the question, the
    update and the delete of a comment under an answer answer 404 and issue
    no write call. *)
Definition nested_comment_without_answer_never_writes_as_stated : Prop :=
  forall (st : State) (req : Request) (q : Value) (answers : list Value),
    store_up st ->
    filter (matches (by_id (params_id req))) (docs st) = [q] ->
    prop "answers" q = Some (VArr answers) ->
    Forall (fun a => exists s, id_string a = Some s /\ s <> params_answerId req)
           answers ->
    (sent (fst (updateAnswerComment req st)) = sent st ++ not_found_sent /\
     writes (calls (fst (updateAnswerComment req st))) = writes (calls st)) /\
    (sent (fst (destroyAnswerComment req st)) = sent st ++ not_found_sent /\
     writes (calls (fst (destroyAnswerComment req st))) = writes (calls st)).

(** C5 as the spec states it, for the delete of an answer: when no answer
    has both the given id and the acting user as owner (the answer is absent,
    or is someone else's), the response is the 404 one. *)
Definition delete_of_unowned_answer_is_404_as_stated : Prop :=
  forall (st : State) (req : Request) (fs : Fields) (answers : list Value),
    store_up st ->
    find (matches (by_id (params_id req))) (docs st) = Some (VObj fs) ->
    lookup "answers" fs = Some (VArr answers) ->
    Forall (fun e => matches (owned_by (params_answerId req) req) e = false)
           answers ->
    sent (fst (destroyAnswer req st)) = sent st ++ not_found_sent.

(** C7 as the spec states it: on every update by the owner the identifier
    field of the payload is removed, and what is saved is the stored document
    merged with the rest of the payload. *)
Definition update_strips_identifier_as_stated : Prop :=
  forall (st : State) (req : Request) (fs : Fields),
    store_up st ->
    find (matches (by_id (params_id req))) (docs st) = Some (VObj fs) ->
    owner_of (VObj fs) = Some (u_id (user req)) ->
    NoDup (keys (body req)) ->
    calls (fst (update req st))
    = calls st ++ [CFindById (params_id req);
                   CSave (merge (VObj fs) (VObj (obj_del "_id" (body req))))].

(** *** Further vocabulary: the handlers as a whole *)

(** The fourteen exported handlers. *)
Definition handlers : list (Request -> M Value) :=
  [index; show; create; update; destroy;
   createAnswer; updateAnswer; destroyAnswer;
   createComment; destroyComment; updateComment;
   createAnswerComment; destroyAnswerComment; updateAnswerComment].

(** [res.status(500).send(err)] *)
Definition failure_calls (err : Value) : list ResCall := [RStatus 500; RSend err].

(** The store answers the coming [n] calls and fails the one after with [e]. *)
Definition fails_after (n : nat) (e : Value) (st : State) : Prop :=
  exists r, faults st = repeat None n ++ Some e :: r.

(** The sample collection behind a store that answers [n] calls and then
    fails with [e]. *)
Definition failing_world (n : nat) (e : Value) : State :=
  {| docs := [q1]; faults := repeat None n ++ [Some e]; next_id := 0;
     rule := FirstArrayCondition; calls := []; sent := [] |}.

Definition Unreachable : Value := VStr "ECONNREFUSED".

(** A question stored without a user. *)
Definition orphan : Value := VObj [("_id", VStr "q9"); ("title", VStr "whose?")].

Definition orphanage : State :=
  {| docs := [q1; orphan]; faults := []; next_id := 0;
     rule := FirstArrayCondition; calls := []; sent := [] |}.

Definition request_on (id : string) (u : User) (b : Fields) : Request :=
  {| params_id := id; params_answerId := "a1"; params_commentId := "c1";
     body := b; user := u |}.

(** The nested handlers that go through one conditional update, each with the
    query and the update document it passes to the store. *)
Definition nested_updates
  : list ((Request -> M Value) * (Request -> Query) * (Request -> list Modifier)) :=
  [(createAnswer,
    fun req => [([Key "_id"], VStr (params_id req))],
    fun req => [MPush [Key "answers"]
                  (VObj (obj_set "user" (user_doc (user req)) (body req)))]);
   (updateAnswer,
    fun req => [([Key "_id"], VStr (params_id req));
                ([Key "answers"; Key "_id"], VStr (params_answerId req))],
    fun req => [MSet [Key "answers"; Pos; Key "content"]
                     (field "content" (body req));
                MSet [Key "answers"; Pos; Key "user"] (uid req)]);
   (destroyAnswer,
    fun req => [([Key "_id"], VStr (params_id req))],
    fun req => [MPull [Key "answers"]
                  [([Key "_id"], VStr (params_answerId req));
                   ([Key "user"], uid req)]]);
   (createComment,
    fun req => [([Key "_id"], VStr (params_id req))],
    fun req => [MPush [Key "comments"]
                  (VObj (obj_set "user" (uid req) (body req)))]);
   (destroyComment,
    fun req => [([Key "_id"], VStr (params_id req))],
    fun req => [MPull [Key "comments"]
                  [([Key "_id"], VStr (params_commentId req));
                   ([Key "user"], uid req)]]);
   (updateComment,
    fun req => [([Key "_id"], VStr (params_id req));
                ([Key "comments"; Key "_id"], VStr (params_commentId req))],
    fun req => [MSet [Key "comments"; Pos; Key "content"]
                     (field "content" (body req));
                MSet [Key "comments"; Pos; Key "user"] (uid req)]);
   (createAnswerComment,
    fun req => [([Key "_id"], VStr (params_id req));
                ([Key "answers"; Key "_id"], VStr (params_answerId req))],
    fun req => [MPush [Key "answers"; Pos; Key "comments"]
                  (VObj (obj_set "user" (uid req) (body req)))]);
   (destroyAnswerComment,
    fun req => [([Key "_id"], VStr (params_id req));
                ([Key "answers"; Key "_id"], VStr (params_answerId req))],
    fun req => [MPull [Key "answers"; Pos; Key "comments"]
                  [([Key "_id"], VStr (params_commentId req));
                   ([Key "user"], uid req)]])].

(** An array element that is an object whose field [k] is [v]. *)
Definition element_field_is (k : string) (v : Value) (e : Value) : bool :=
  match e with
  | VObj efs =>
      match lookup k efs with
      | Some x => value_eqb x v
      | None => false
      end
  | _ => false
  end.

(** The index-by-index loop of [merge] on arrays, named for the proofs. *)
Fixpoint merge_items (sl dl : list Value) : list Value :=
  match sl with
  | [] => dl
  | sv :: r =>
      match dl with
      | [] => merge VNull sv :: merge_items r []
      | dv :: dr => merge dv sv :: merge_items r dr
      end
  end.

(* ================================================================== *)
(** ** Facts about values and objects *)

Section JsonFacts.

Lemma value_eqb_refl (v : Value) : value_eqb v v = true.
Proof.
  induction v using Value_nested_ind; simpl; auto.
  - now destruct b.
  - apply Z.eqb_refl.
  - apply String.eqb_refl.
  - induction H as [|x l Hx _ IH]; [reflexivity|].
    now rewrite Hx, IH.
  - induction H as [|[k x] l Hx _ IH]; [reflexivity|].
    simpl in Hx. now rewrite String.eqb_refl, Hx, IH.
Qed.

Lemma value_eqb_eq (a b : Value) : value_eqb a b = true <-> a = b.
Proof.
  split; [|intros ->; apply value_eqb_refl].
  revert b.
  induction a using Value_nested_ind; intros [] E; simpl in E;
    try discriminate; auto.
  - now apply Bool.eqb_prop in E; subst.
  - now apply Z.eqb_eq in E; subst.
  - now apply String.eqb_eq in E; subst.
  - f_equal. revert items E.
    induction H as [|x l Hx _ IH]; intros [|y ys] E;
      try discriminate; auto.
    apply andb_prop in E as [E1 E2].
    f_equal; auto.
  - f_equal. revert fields E.
    induction H as [|[k x] l Hx _ IH]; intros [|[k' y] ys] E;
      try discriminate; auto.
    apply andb_prop in E as [E12 E3].
    apply andb_prop in E12 as [E1 E2].
    apply String.eqb_eq in E1. simpl in Hx.
    f_equal; [f_equal|]; auto.
Qed.

Lemma value_eqb_neq (a b : Value) : a <> b -> value_eqb a b = false.
Proof.
  intros N. destruct (value_eqb a b) eqn:E; auto.
  now apply value_eqb_eq in E.
Qed.

Lemma lookup_obj_set_same k v fs : lookup k (obj_set k v fs) = Some v.
Proof.
  induction fs as [|[k' x] r IH]; simpl.
  - now rewrite String.eqb_refl.
  - destruct (String.eqb k k') eqn:E; simpl; rewrite E; auto.
Qed.

Lemma lookup_obj_set_other k k' v fs :
  k' <> k -> lookup k' (obj_set k v fs) = lookup k' fs.
Proof.
  intros N.
  induction fs as [|[k0 x] r IH]; simpl.
  - apply String.eqb_neq in N. now rewrite N.
  - destruct (String.eqb k k0) eqn:E; simpl.
    + apply String.eqb_eq in E; subst k0.
      apply String.eqb_neq in N. now rewrite N.
    + now rewrite IH.
Qed.

Lemma field_obj_set_same k v fs : field k (obj_set k v fs) = v.
Proof. unfold field. now rewrite lookup_obj_set_same. Qed.

Lemma field_obj_set_other k k' v fs :
  k' <> k -> field k' (obj_set k v fs) = field k' fs.
Proof. intros N. unfold field. now rewrite lookup_obj_set_other. Qed.

Lemma obj_set_same k v fs : lookup k fs = Some v -> obj_set k v fs = fs.
Proof.
  induction fs as [|[k' x] r IH]; simpl; [discriminate|].
  destruct (String.eqb k k') eqn:E.
  - now intros [= ->].
  - intros L. now rewrite IH.
Qed.

Lemma lookup_obj_del_same k fs : lookup k (obj_del k fs) = None.
Proof.
  induction fs as [|[k' x] r IH]; simpl; auto.
  destruct (String.eqb k k') eqn:E; simpl; [|rewrite E]; auto.
Qed.

Lemma lookup_obj_del_other k k' fs :
  k' <> k -> lookup k' (obj_del k fs) = lookup k' fs.
Proof.
  intros N.
  induction fs as [|[k0 x] r IH]; simpl; auto.
  destruct (String.eqb k k0) eqn:E; simpl.
  - apply String.eqb_eq in E; subst k0.
    apply String.eqb_neq in N. now rewrite N.
  - now rewrite IH.
Qed.

Lemma lookup_None_not_in k fs : lookup k fs = None <-> ~ In k (keys fs).
Proof.
  induction fs as [|[k' x] r IH]; simpl.
  - tauto.
  - destruct (String.eqb k k') eqn:E.
    + apply String.eqb_eq in E; subst. split; [discriminate|tauto].
    + apply String.eqb_neq in E. rewrite IH. split.
      * intros H [C|C]; [now subst|auto].
      * tauto.
Qed.

Lemma keys_obj_set k v fs :
  In k (keys fs) -> keys (obj_set k v fs) = keys fs.
Proof.
  induction fs as [|[k' x] r IH]; simpl; [tauto|].
  destruct (String.eqb k k') eqn:E; simpl; auto.
  apply String.eqb_neq in E.
  intros [C|C]; [now subst|]. now rewrite IH.
Qed.

End JsonFacts.

(* ================================================================== *)
(** ** Facts about [merge] *)

Section MergeFacts.

Lemma merge_scalar dst src : is_scalar src = true -> merge dst src = src.
Proof. now destruct src. Qed.

Lemma merge_object dst sfs :
  merge dst (VObj sfs)
  = VObj (merge_fields sfs (match dst with VObj d => d | _ => [] end)).
Proof.
  reflexivity.
Qed.

(** Fields the source does not name are kept. *)
Lemma merge_fields_frame k sfs acc :
  ~ In k (keys sfs) -> lookup k (merge_fields sfs acc) = lookup k acc.
Proof.
  revert acc.
  induction sfs as [|[k' sv] r IH]; intros acc N; simpl in *; auto.
  rewrite IH by tauto.
  apply lookup_obj_set_other. intros ->. tauto.
Qed.

(** A field the source names once receives the merge of the old value and
    the source's. *)
Lemma merge_fields_provided k v sfs acc :
  NoDup (keys sfs) -> lookup k sfs = Some v ->
  lookup k (merge_fields sfs acc) = Some (merge (field k acc) v).
Proof.
  revert acc.
  induction sfs as [|[k' sv] r IH]; intros acc ND L; simpl in *;
    [discriminate|].
  inversion ND as [|? ? NI ND']; subst.
  destruct (String.eqb k k') eqn:E.
  - apply String.eqb_eq in E; subst k'. injection L as ->.
    rewrite merge_fields_frame by assumption.
    apply lookup_obj_set_same.
  - rewrite IH by assumption.
    apply String.eqb_neq in E.
    now rewrite field_obj_set_other.
Qed.

End MergeFacts.

(* ================================================================== *)
(** ** Running the store and the response *)

Section RunFacts.

Lemma store_up_advance c st : store_up st -> store_up (advance c st).
Proof.
  unfold store_up, advance; simpl.
  destruct (faults st); simpl; auto.
  now inversion 1.
Qed.

Lemma store_up_say c st : store_up st -> store_up (say c st).
Proof. auto. Qed.

Lemma store_up_set_docs ds st : store_up st -> store_up (set_docs ds st).
Proof. auto. Qed.

Lemma call_run c st : Res.call c st = (say c st, inr tt).
Proof. reflexivity. Qed.

Lemma log_tick_up {A : Type} c (k : M A) st :
  store_up st ->
  (Question.log c ;; Question.tick ;; k) st = k (advance c st).
Proof.
  intros U. destruct st as [ds fs n r cs ss].
  unfold store_up in U; simpl in U.
  unfold bind, Question.log, Question.tick, advance; simpl.
  destruct fs as [|o fr]; simpl; auto.
  inversion U; subst. reflexivity.
Qed.

Lemma findByIdAsync_up id st :
  store_up st ->
  Question.findByIdAsync id st
  = (advance (CFindById id) st,
     inr (match find (matches (by_id id)) (docs st) with
          | Some d => d
          | None => VNull
          end)).
Proof.
  intros U. unfold Question.findByIdAsync.
  now rewrite log_tick_up.
Qed.

Lemma find_all_up q st :
  store_up st ->
  Question.find_all q st
  = (advance (CFind q) st, inr (filter (matches q) (docs st))).
Proof.
  intros U. unfold Question.find_all.
  now rewrite log_tick_up.
Qed.

Lemma list_recent_up st :
  store_up st ->
  Question.list_recent st
  = (advance CList st, inr (VArr (firstn 20 (sort_desc (docs st))))).
Proof.
  intros U. unfold Question.list_recent.
  now rewrite log_tick_up.
Qed.

Lemma saveAsync_up e st :
  store_up st ->
  Question.saveAsync e st
  = (set_docs (replace_first (Question.has_id (Question.doc_id e)) e (docs st))
       (advance (CSave e) st), inr e).
Proof.
  intros U. unfold Question.saveAsync.
  now rewrite log_tick_up.
Qed.

Lemma removeAsync_up e st :
  store_up st ->
  Question.removeAsync e st
  = (set_docs (remove_first (Question.has_id (Question.doc_id e)) (docs st))
       (advance (CRemove e) st), inr tt).
Proof.
  intros U. unfold Question.removeAsync.
  now rewrite log_tick_up.
Qed.

Lemma update_up q ms st :
  store_up st ->
  Question.update q ms st
  = match update_first (rule st) q ms (docs st) with
    | Some (ds, n) => (set_docs ds (advance (CUpdate q ms) st), inr n)
    | None => (advance (CUpdate q ms) st, inl WriteError)
    end.
Proof.
  intros U. unfold Question.update.
  now rewrite log_tick_up.
Qed.

End RunFacts.

(* ================================================================== *)
(** ** Ownership check of the top-level handlers *)

Section Ownership.

Lemma matches_by_id_truthy id d : matches (by_id id) d = true -> truthy d = true.
Proof.
  destruct d as [| b | n | s | l | fs]; auto; discriminate.
Qed.

Lemma matches_by_id_object id fs :
  matches (by_id id) (VObj fs) = true -> lookup "_id" fs = Some (VStr id).
Proof.
  unfold matches, by_id, holds, hits; simpl.
  destruct (lookup "_id" fs) as [x|] eqn:L; simpl; [|discriminate].
  destruct (value_eqb x (VStr id)) eqn:E; simpl; [|discriminate].
  apply value_eqb_eq in E. now subst.
Qed.

Lemma matches_by_id_intro id fs :
  lookup "_id" fs = Some (VStr id) -> matches (by_id id) (VObj fs) = true.
Proof.
  intros L. unfold matches, by_id, holds, hits; simpl.
  rewrite L; simpl. now rewrite String.eqb_refl.
Qed.

Lemma found_truthy id ds e :
  find (matches (by_id id)) ds = Some e -> truthy e = true.
Proof.
  intros F. apply find_some in F as [_ F].
  now apply matches_by_id_truthy in F.
Qed.

Lemma handleUnauthorized_stranger req e o st :
  truthy e = true -> owner_of e = Some o -> o <> u_id (user req) ->
  handleUnauthorized req e st
  = (say REnd (say (RSend (VNum 403)) st), inr VNull).
Proof.
  intros T O N. unfold handleUnauthorized, owner_of in *.
  rewrite T; simpl.
  unfold bind, get_prop, to_string.
  destruct (prop "user" e) as [u|]; [|discriminate]; simpl.
  destruct (prop "_id" u) as [i|]; [|discriminate]; simpl.
  rewrite O; simpl.
  apply String.eqb_neq in N. rewrite N; simpl.
  reflexivity.
Qed.

Lemma handleUnauthorized_owner req e st :
  truthy e = true -> owner_of e = Some (u_id (user req)) ->
  handleUnauthorized req e st = (st, inr e).
Proof.
  intros T O. unfold handleUnauthorized, owner_of in *.
  rewrite T; simpl.
  unfold bind, get_prop, to_string.
  destruct (prop "user" e) as [u|]; [|discriminate]; simpl.
  destruct (prop "_id" u) as [i|]; [|discriminate]; simpl.
  rewrite O; simpl.
  rewrite String.eqb_refl; simpl.
  reflexivity.
Qed.

End Ownership.

(* ================================================================== *)
(** ** Listing: newest first, twenty at most *)

Section Listing.

Lemma key_leb_total a b : key_leb a b = false -> key_leb b a = true.
Proof.
  destruct a as [x|], b as [y|]; simpl; auto; try discriminate.
  rewrite Z.leb_gt, Z.leb_le. lia.
Qed.

Lemma key_leb_trans a b c :
  key_leb a b = true -> key_leb b c = true -> key_leb a c = true.
Proof.
  destruct a as [x|], b as [y|], c as [z|]; simpl; auto; try discriminate.
  rewrite !Z.leb_le. lia.
Qed.

Lemma key_leb_antisym a b :
  key_leb a b = true -> key_leb b a = true -> a = b.
Proof.
  destruct a as [x|], b as [y|]; simpl; auto; try discriminate.
  rewrite !Z.leb_le. intros. f_equal. lia.
Qed.

Lemma insert_desc_perm d l : Permutation (insert_desc d l) (d :: l).
Proof.
  induction l as [|x r IH]; simpl; auto.
  destruct (key_leb (created x) (created d)); auto.
  rewrite IH. apply perm_swap.
Qed.

Lemma sort_desc_perm l : Permutation (sort_desc l) l.
Proof.
  induction l as [|d r IH]; simpl; auto.
  rewrite insert_desc_perm. now constructor.
Qed.

Lemma insert_desc_sorted d l :
  StronglySorted newer_or_same l ->
  StronglySorted newer_or_same (insert_desc d l).
Proof.
  induction 1 as [|x r S IH F]; simpl.
  - repeat constructor.
  - destruct (key_leb (created x) (created d)) eqn:E.
    + constructor; [now constructor|].
      constructor; [exact E|].
      eapply Forall_impl; [|exact F].
      intros y Hy. unfold newer_or_same in *.
      eapply key_leb_trans; eauto.
    + constructor; auto.
      eapply Permutation_Forall; [symmetry; apply insert_desc_perm|].
      constructor; auto.
      now apply key_leb_total.
Qed.

Lemma sort_desc_sorted l : StronglySorted newer_or_same (sort_desc l).
Proof.
  induction l as [|d r IH]; simpl.
  - constructor.
  - now apply insert_desc_sorted.
Qed.

Lemma sorted_firstn {A} (R : A -> A -> Prop) n l :
  StronglySorted R l -> StronglySorted R (firstn n l).
Proof.
  intros S. revert n.
  induction S as [|x r S IH F]; intros [|n]; simpl; try constructor; auto.
  apply Forall_forall. intros y Hy.
  rewrite Forall_forall in F. apply F.
  rewrite <- (firstn_skipn n r). apply in_or_app. now left.
Qed.

Lemma sorted_split {A} (R : A -> A -> Prop) l1 l2 :
  StronglySorted R (l1 ++ l2) ->
  forall x y, In x l1 -> In y l2 -> R x y.
Proof.
  induction l1 as [|a r IH]; simpl; intros S x y Hx Hy; [tauto|].
  inversion S as [|? ? S' F]; subst.
  destruct Hx as [->|Hx]; [|eauto].
  rewrite Forall_forall in F. apply F, in_or_app. now right.
Qed.

Lemma sorted_strict l :
  StronglySorted newer_or_same l -> NoDup (map created l) ->
  StronglySorted newer l.
Proof.
  induction 1 as [|x r S IH F]; simpl; intros ND; constructor;
    inversion ND as [|? ? NI ND']; subst; auto.
  rewrite Forall_forall in *. intros y Hy.
  unfold newer, newer_or_same in *.
  destruct (key_leb (created x) (created y)) eqn:E; auto.
  exfalso. apply NI.
  rewrite (key_leb_antisym _ _ E (F y Hy)).
  now apply in_map.
Qed.

Lemma index_up req st :
  store_up st ->
  index req st
  = (say (RJson (VArr (firstn 20 (sort_desc (docs st)))))
       (say (RStatus 200) (advance CList st)), inr VNull).
Proof.
  intros U. unfold index, catch, bind.
  now rewrite (list_recent_up _ U).
Qed.

End Listing.

(* ================================================================== *)
(** ** Creation *)

Section Creation.

Lemma create_result body st st1 doc :
  Question.create body st = (st1, inr doc) ->
  (doc = VObj body
   \/ exists i, doc = VObj (("_id", i) :: obj_del "_id" body)) /\
  docs st1 = docs st ++ [doc] /\
  sent st1 = sent st /\
  calls st1 = calls st ++ [CCreate (VObj body)].
Proof.
  unfold Question.create, bind, Question.log, Question.tick; simpl.
  destruct (faults st) as [|[e|] fr]; simpl; try discriminate.
  - destruct (existsb _ _); [discriminate|].
    intros [= <- <-]; simpl.
    destruct (field "_id" body); eauto 6.
  - destruct (existsb _ _); [discriminate|].
    intros [= <- <-]; simpl.
    destruct (field "_id" body); eauto 6.
Qed.

Lemma created_truthy body st st1 doc :
  Question.create body st = (st1, inr doc) -> truthy doc = true.
Proof.
  intros C. apply create_result in C as ([->|[i ->]] & _); reflexivity.
Qed.

End Creation.

(* ================================================================== *)
(** ** Update by the owner *)

Section OwnerUpdate.

Lemma keys_obj_del_incl k fs x : In x (keys (obj_del k fs)) -> In x (keys fs).
Proof.
  induction fs as [|[k' v] r IH]; simpl; auto.
  destruct (String.eqb k k'); simpl; tauto.
Qed.

Lemma NoDup_keys_obj_del k fs : NoDup (keys fs) -> NoDup (keys (obj_del k fs)).
Proof.
  induction fs as [|[k' v] r IH]; simpl; auto.
  inversion 1 as [|? ? NI ND]; subst.
  destruct (String.eqb k k'); simpl; auto.
  constructor; auto.
  intros C. apply NI. eapply keys_obj_del_incl; eauto.
Qed.

Lemma NoDup_keys_strip_id body : NoDup (keys body) -> NoDup (keys (strip_id body)).
Proof.
  unfold strip_id. destruct (truthy _); auto using NoDup_keys_obj_del.
Qed.

(** Only [_id] is ever taken out of the payload. *)
Lemma strip_id_other body k :
  k <> "_id" -> lookup k (strip_id body) = lookup k body.
Proof.
  intros N. unfold strip_id.
  destruct (truthy _); auto using lookup_obj_del_other.
Qed.

Lemma strip_id_truthy body :
  truthy (field "_id" body) = true -> lookup "_id" (strip_id body) = None.
Proof.
  intros T. unfold strip_id. rewrite T. apply lookup_obj_del_same.
Qed.

Lemma update_by_owner req st fs :
  store_up st ->
  find (matches (by_id (params_id req))) (docs st) = Some (VObj fs) ->
  owner_of (VObj fs) = Some (u_id (user req)) ->
  let saved := VObj (merge_fields (strip_id (body req)) fs) in
  update req st
  = (say (RJson saved) (say (RStatus 200)
       (set_docs (replace_first (Question.has_id (Question.doc_id saved)) saved
                    (docs st))
          (advance (CSave saved) (advance (CFindById (params_id req)) st)))),
     inr VNull).
Proof.
  intros U F O saved.
  unfold update, catch, bind.
  rewrite (findByIdAsync_up _ _ U), F. cbv beta iota.
  unfold handleEntityNotFound. cbn [truthy negb]. unfold ret.
  rewrite (handleUnauthorized_owner req (VObj fs) _ eq_refl O).
  unfold saveUpdates. rewrite merge_object.
  rewrite saveAsync_up by now apply store_up_advance.
  reflexivity.
Qed.

Lemma find_replace_first p d ds :
  p d = true -> (exists x, In x ds /\ p x = true) ->
  find p (replace_first p d ds) = Some d.
Proof.
  intros Pd (x & Hx & Px).
  induction ds as [|y r IH]; simpl in *; [tauto|].
  destruct (p y) eqn:E; simpl.
  - now rewrite Pd.
  - rewrite E. destruct Hx as [->|Hx]; [congruence|auto].
Qed.

(** What the guard of the delete does: a truthy [_id] is deleted, anything
    else leaves the payload as it came. *)
Lemma strip_id_of_truthy body :
  truthy (field "_id" body) = true -> strip_id body = obj_del "_id" body.
Proof. intros T. unfold strip_id. now rewrite T. Qed.

Lemma strip_id_of_falsy body :
  truthy (field "_id" body) = false -> strip_id body = body.
Proof. intros T. unfold strip_id. now rewrite T. Qed.

Lemma falsy_is_scalar v : truthy v = false -> is_scalar v = true.
Proof. now destruct v. Qed.

Lemma strip_id_without_id body :
  truthy (field "_id" body) = true \/ lookup "_id" body = None ->
  lookup "_id" (strip_id body) = None.
Proof.
  intros [T|L]; [now apply strip_id_truthy|].
  rewrite strip_id_of_falsy; [assumption|].
  unfold field. now rewrite L.
Qed.

End OwnerUpdate.

(* ================================================================== *)
(** ** Conditional updates of embedded elements *)

Section NestedRuns.

Lemma update_first_none r q ms ds :
  Forall (fun d => matches q d = false) ds ->
  update_first r q ms ds = Some (ds, 0%nat).
Proof.
  induction 1 as [|d ds Hd _ IH]; simpl; auto.
  now rewrite Hd, IH.
Qed.

Lemma update_first_hit r q ms before d d' after :
  Forall (fun x => matches q x = false) before ->
  matches q d = true ->
  apply_modifiers (positional r q d) ms d = Some d' ->
  update_first r q ms (before ++ d :: after) = Some (before ++ d' :: after, 1%nat).
Proof.
  intros Hb Hd Ha.
  induction Hb as [|x xs Hx _ IH]; simpl.
  - now rewrite Hd, Ha.
  - now rewrite Hx, IH.
Qed.

Lemma find_none_iff_no_match q (ds : list Value) :
  Forall (fun d => matches q d = false) ds -> find (matches q) ds = None.
Proof.
  induction 1 as [|d ds Hd _ IH]; simpl; auto.
  now rewrite Hd.
Qed.

Lemma find_after_misses q before d after :
  Forall (fun x => matches q x = false) before ->
  matches q d = true ->
  find (matches q) (before ++ d :: after) = Some d.
Proof.
  intros Hb Hd.
  induction Hb as [|x xs Hx _ IH]; simpl.
  - now rewrite Hd.
  - now rewrite Hx.
Qed.

Lemma show_found req st d :
  store_up st ->
  find (matches (by_id (params_id req))) (docs st) = Some d ->
  show req st
  = (say (RJson d) (say (RStatus 200) (advance (CFindById (params_id req)) st)),
     inr VNull).
Proof.
  intros U F. unfold show, catch, bind.
  rewrite (findByIdAsync_up _ _ U), F. cbv beta iota.
  unfold handleEntityNotFound, respondWithResult.
  rewrite (found_truthy _ _ _ F). cbn [negb]. unfold ret. cbv beta iota.
  rewrite (found_truthy _ _ _ F). reflexivity.
Qed.

Lemma show_missing req st :
  store_up st ->
  find (matches (by_id (params_id req))) (docs st) = None ->
  show req st
  = (say REnd (say (RStatus 404) (advance (CFindById (params_id req)) st)),
     inr VNull).
Proof.
  intros U F. unfold show, catch, bind.
  now rewrite (findByIdAsync_up _ _ U), F.
Qed.

Lemma conditional_no_match req q ms st :
  store_up st -> no_match q st ->
  conditional req q ms st
  = (say REnd (say (RSend (VNum 404)) (advance (CUpdate q ms) st)), inr VNull).
Proof.
  intros U N. unfold conditional, bind, attempt.
  rewrite (update_up _ _ _ U), (update_first_none _ _ _ _ N).
  reflexivity.
Qed.

Lemma conditional_hit req q ms st before d d' after shown :
  store_up st ->
  docs st = before ++ d :: after ->
  Forall (fun x => matches q x = false) before ->
  matches q d = true ->
  apply_modifiers (positional (rule st) q d) ms d = Some d' ->
  find (matches (by_id (params_id req))) (before ++ d' :: after) = Some shown ->
  conditional req q ms st
  = (say (RJson shown) (say (RStatus 200)
       (advance (CFindById (params_id req))
          (set_docs (before ++ d' :: after) (advance (CUpdate q ms) st)))),
     inr VNull).
Proof.
  intros U D Hb Hd Ha F. unfold conditional, bind, attempt.
  rewrite (update_up _ _ _ U), D, (update_first_hit _ _ _ _ _ _ _ Hb Hd Ha).
  cbv beta iota. unfold after_update. cbn [Nat.eqb].
  apply show_found; [|exact F].
  apply store_up_set_docs, store_up_advance, U.
Qed.

End NestedRuns.

(* ================================================================== *)
(** ** Nothing matched *)

Section NotFound.

Lemma nested_handler_no_match h q req st :
  In (h, q) nested_handlers ->
  store_up st -> no_match (q req) st ->
  exists ms,
    h req st
    = (say REnd (say (RSend (VNum 404)) (advance (CUpdate (q req) ms) st)),
       inr VNull).
Proof.
  intros I U N. simpl in I.
  repeat (destruct I as [I|I];
          [injection I as <- <-; eexists;
           apply (conditional_no_match _ _ _ _ U N)|]).
  destruct I.
Qed.

Lemma updateAnswerComment_no_question req st :
  store_up st -> no_match (by_id (params_id req)) st ->
  updateAnswerComment req st
  = (say REnd (say (RSend (VNum 404))
       (advance (CFind (by_id (params_id req))) st)), inr VNull).
Proof.
  intros U N. unfold updateAnswerComment, bind, attempt.
  rewrite (find_all_up _ _ U).
  replace (filter (matches [([Key "_id"], VStr (params_id req))]) (docs st))
    with (@nil Value); [reflexivity|].
  symmetry. unfold no_match in N.
  induction N as [|d ds Hd _ IH]; cbn [filter]; auto.
  unfold by_id in Hd. now rewrite Hd.
Qed.

Lemma top_level_missing req st :
  store_up st -> no_match (by_id (params_id req)) st ->
  show req st
  = (say REnd (say (RStatus 404) (advance (CFindById (params_id req)) st)),
     inr VNull) /\
  destroy req st
  = (say REnd (say (RStatus 404) (advance (CFindById (params_id req)) st)),
     inr VNull) /\
  update req st
  = (say (RSend TypeError) (say (RStatus 500)
       (say REnd (say (RStatus 404) (advance (CFindById (params_id req)) st)))),
     inr VNull).
Proof.
  intros U N.
  pose proof (find_none_iff_no_match _ _ N) as F.
  split; [now apply show_missing|].
  split.
  - unfold destroy, catch, bind.
    now rewrite (findByIdAsync_up _ _ U), F.
  - unfold update, catch, bind.
    now rewrite (findByIdAsync_up _ _ U), F.
Qed.

End NotFound.

(* ================================================================== *)
(** ** Removing embedded elements *)

Section Pull.

Lemma owned_by_object eid req efs :
  matches (owned_by eid req) (VObj efs) = true
  <-> lookup "_id" efs = Some (VStr eid) /\ lookup "user" efs = Some (uid req).
Proof.
  unfold matches, owned_by, holds, hits; simpl.
  destruct (lookup "_id" efs) as [x|]; simpl;
    [|split; [discriminate|intros [? _]; discriminate]].
  destruct (lookup "user" efs) as [y|]; simpl.
  - destruct (value_eqb x (VStr eid)) eqn:E1; simpl.
    + apply value_eqb_eq in E1; subst x.
      destruct (value_eqb y (uid req)) eqn:E2; simpl.
      * apply value_eqb_eq in E2; subst y. tauto.
      * split; [discriminate|]. intros [_ [= ->]].
        now rewrite value_eqb_refl in E2.
    + split; [discriminate|]. intros [[= ->] _].
      now rewrite value_eqb_refl in E1.
  - destruct (value_eqb x (VStr eid)); simpl;
      (split; [discriminate|intros [_ ?]; discriminate]).
Qed.

Lemma filter_all {A} (p : A -> bool) l :
  Forall (fun x => p x = true) l -> filter p l = l.
Proof.
  induction 1 as [|x r Hx _ IH]; simpl; auto.
  now rewrite Hx, IH.
Qed.

Lemma pull_apply pos arr cond fs l :
  lookup arr fs = Some (VArr l) ->
  apply_modifiers pos [MPull [Key arr] cond] (VObj fs)
  = Some (VObj (obj_set arr
                  (VArr (filter (fun e => negb (matches cond e)) l)) fs)).
Proof.
  intros L. unfold apply_modifiers, apply_modifier; simpl.
  now rewrite L.
Qed.

Lemma pull_hit req arr cond st before fs after l :
  arr <> "_id" ->
  store_up st ->
  docs st = before ++ VObj fs :: after ->
  Forall (fun d => matches (by_id (params_id req)) d = false) before ->
  lookup "_id" fs = Some (VStr (params_id req)) ->
  lookup arr fs = Some (VArr l) ->
  let q' := VObj (obj_set arr
                    (VArr (filter (fun e => negb (matches cond e)) l)) fs) in
  conditional req (by_id (params_id req)) [MPull [Key arr] cond] st
  = (say (RJson q') (say (RStatus 200)
       (advance (CFindById (params_id req))
          (set_docs (before ++ q' :: after)
             (advance (CUpdate (by_id (params_id req)) [MPull [Key arr] cond])
                st)))),
     inr VNull).
Proof.
  intros Na U D Hb Hi La q'.
  assert (Hq' : matches (by_id (params_id req)) q' = true).
  { apply matches_by_id_intro.
    rewrite lookup_obj_set_other; [assumption|congruence]. }
  eapply conditional_hit; eauto.
  - now apply matches_by_id_intro.
  - now apply pull_apply.
  - now apply find_after_misses.
Qed.

Lemma destroyAnswer_conditional req :
  destroyAnswer req
  = conditional req (by_id (params_id req))
      [MPull [Key "answers"] (owned_by (params_answerId req) req)].
Proof. reflexivity. Qed.

Lemma destroyComment_conditional req :
  destroyComment req
  = conditional req (by_id (params_id req))
      [MPull [Key "comments"] (owned_by (params_commentId req) req)].
Proof. reflexivity. Qed.

End Pull.

(* ================================================================== *)
(** ** Looking an answer up *)

Section AnswerLookup.

Lemma hits_in_array arr eid fs items :
  lookup arr fs = Some (VArr items) ->
  hits ([Key arr; Key "_id"], VStr eid) (VObj fs)
  = map (fun ix => Some (fst ix))
        (filter (fun ix => element_has_id eid (snd ix)) (indexed 0 items)).
Proof.
  intros L. unfold hits. cbn [fst snd reach]. rewrite L. clear L.
  generalize 0%nat.
  induction items as [|x r IH]; intros i; cbn [indexed flat_map filter map]; auto.
  rewrite filter_app, map_app, IH. cbn [fst snd].
  destruct x as [| b | n | s | l | efs]; cbn [element_has_id app filter map]; auto.
  destruct (lookup "_id" efs) as [y|]; cbn [reach map app filter fst snd]; auto.
  destruct (value_eqb y (VStr eid)); reflexivity.
Qed.

Lemma indexed_no_element eid items i :
  Forall (fun a => element_has_id eid a = false) items ->
  filter (fun ix : nat * Value => element_has_id eid (snd ix)) (indexed i items) = [].
Proof.
  intros F. revert i.
  induction F as [|x r Hx _ IH]; intros i; cbn [indexed filter]; auto.
  cbn [snd]. now rewrite Hx.
Qed.

(** An element the loop does not take for the answer is not one the store
    would match either. *)
Lemma id_string_differs eid a s :
  id_string a = Some s -> s <> eid -> element_has_id eid a = false.
Proof.
  intros I N.
  destruct a as [| b | n | t | l | efs]; auto.
  unfold element_has_id.
  destruct (lookup "_id" efs) as [x|] eqn:L; auto.
  destruct (value_eqb x (VStr eid)) eqn:E; auto.
  apply value_eqb_eq in E; subst x.
  unfold id_string, prop, field in I. rewrite L in I.
  simpl in I. congruence.
Qed.

Lemma no_answer_no_match req st q answers :
  filter (matches (by_id (params_id req))) (docs st) = [q] ->
  prop "answers" q = Some (VArr answers) ->
  Forall (fun a => exists s, id_string a = Some s /\ s <> params_answerId req)
         answers ->
  no_match [([Key "_id"], VStr (params_id req));
            ([Key "answers"; Key "_id"], VStr (params_answerId req))] st.
Proof.
  intros Hf Hp Ha. unfold no_match.
  apply Forall_forall. intros d Hd.
  unfold matches. cbn [forallb].
  destruct (holds ([Key "_id"], VStr (params_id req)) d) eqn:E; auto.
  assert (Hm : matches (by_id (params_id req)) d = true).
  { unfold matches, by_id. cbn [forallb]. now rewrite E. }
  assert (Hq : In d [q]).
  { rewrite <- Hf. apply filter_In. auto. }
  destruct Hq as [<-|[]].
  destruct q as [| b | n | s | l | fs]; try discriminate.
  cbn [prop] in Hp. unfold field in Hp.
  destruct (lookup "answers" fs) as [x|] eqn:L; [|discriminate].
  injection Hp as ->.
  unfold holds at 1.
  rewrite (hits_in_array _ _ _ _ L), indexed_no_element; [reflexivity|].
  eapply Forall_impl; [|exact Ha].
  intros a (s & Hs & Hn). eapply id_string_differs; eauto.
Qed.

Lemma scan_no_answer req answers i st :
  Forall (fun a => exists s, id_string a = Some s /\ s <> params_answerId req)
         answers ->
  scan req i answers st = (st, inr (false, [])).
Proof.
  intros F. revert i.
  induction F as [|a r (s & Hs & Hn) _ IH]; intros i; cbn [scan]; auto.
  unfold bind at 1. unfold bind at 1.
  unfold id_string in Hs. unfold get_prop, to_string.
  destruct (prop "_id" a) as [x|]; [|discriminate].
  unfold ret at 1. cbv beta iota. rewrite Hs.
  unfold ret at 1. cbv beta iota.
  apply String.eqb_neq in Hn. rewrite Hn.
  apply IH.
Qed.

Lemma updateAnswerComment_no_answer req st q answers :
  store_up st ->
  filter (matches (by_id (params_id req))) (docs st) = [q] ->
  prop "answers" q = Some (VArr answers) ->
  Forall (fun a => exists s, id_string a = Some s /\ s <> params_answerId req)
         answers ->
  updateAnswerComment req st
  = (say REnd (say (RSend (VNum 404))
       (advance (CFind (by_id (params_id req))) st)), inr VNull).
Proof.
  intros U Hf Hp Ha.
  unfold updateAnswerComment, bind, attempt.
  rewrite (find_all_up _ _ U). unfold by_id in Hf. rewrite Hf.
  cbv beta iota. unfold get_prop. rewrite Hp.
  unfold ret at 1. cbv beta iota. unfold elements, ret at 1. cbv beta iota.
  rewrite (scan_no_answer req answers 0 _ Ha).
  reflexivity.
Qed.

Lemma destroyAnswerComment_conditional req :
  destroyAnswerComment req
  = conditional req
      [([Key "_id"], VStr (params_id req));
       ([Key "answers"; Key "_id"], VStr (params_answerId req))]
      [MPull [Key "answers"; Pos; Key "comments"]
             (owned_by (params_commentId req) req)].
Proof. reflexivity. Qed.

Lemma scan_single req pre a post i st :
  store_up st ->
  Forall (fun a => exists s, id_string a = Some s /\ s <> params_answerId req) pre ->
  id_string a = Some (params_answerId req) ->
  Forall (fun a => exists s, id_string a = Some s /\ s <> params_answerId req) post ->
  no_match (comment_conditions req (i + List.length pre)) st ->
  scan req i (pre ++ a :: post) st
  = (advance (CUpdate (comment_conditions req (i + List.length pre))
                      (comment_doc req (i + List.length pre))) st,
     inr (true, [inr 0%nat])).
Proof.
  intros U Fp Ha Fq. revert i.
  induction Fp as [|b r (s & Hs & Hn) _ IH]; intros i N; cbn [app scan List.length].
  - rewrite Nat.add_0_r in *.
    unfold bind at 1. unfold bind at 1.
    unfold id_string in Ha. unfold get_prop, to_string.
    destruct (prop "_id" a) as [x|]; [|discriminate].
    unfold ret at 1. cbv beta iota. rewrite Ha.
    unfold ret at 1. cbv beta iota.
    rewrite String.eqb_refl.
    unfold bind, attempt.
    rewrite (update_up _ _ _ U), (update_first_none _ _ _ _ N).
    rewrite (scan_no_answer req post (S i) _ Fq).
    reflexivity.
  - unfold bind at 1. unfold bind at 1.
    unfold id_string in Hs. unfold get_prop, to_string.
    destruct (prop "_id" b) as [x|]; [|discriminate].
    unfold ret at 1. cbv beta iota. rewrite Hs.
    unfold ret at 1. cbv beta iota.
    apply String.eqb_neq in Hn. rewrite Hn.
    rewrite (IH (S i)).
    + now rewrite Nat.add_succ_r.
    + now rewrite Nat.add_succ_l, <- Nat.add_succ_r.
Qed.

Lemma updateAnswerComment_no_comment req st q pre a post :
  store_up st ->
  filter (matches (by_id (params_id req))) (docs st) = [q] ->
  prop "answers" q = Some (VArr (pre ++ a :: post)) ->
  Forall (fun a => exists s, id_string a = Some s /\ s <> params_answerId req) pre ->
  id_string a = Some (params_answerId req) ->
  Forall (fun a => exists s, id_string a = Some s /\ s <> params_answerId req) post ->
  no_match (comment_conditions req (List.length pre)) st ->
  updateAnswerComment req st
  = (say REnd (say (RSend (VNum 404))
       (advance (CUpdate (comment_conditions req (List.length pre))
                         (comment_doc req (List.length pre)))
          (advance (CFind (by_id (params_id req))) st))), inr VNull).
Proof.
  intros U Hf Hp Fp Ha Fq N.
  unfold updateAnswerComment, bind, attempt.
  rewrite (find_all_up _ _ U). unfold by_id in Hf. rewrite Hf.
  cbv beta iota. unfold get_prop. rewrite Hp.
  unfold ret at 1. cbv beta iota. unfold elements, ret at 1. cbv beta iota.
  rewrite (scan_single req pre a post 0 _ (store_up_advance _ _ U) Fp Ha Fq N).
  reflexivity.
Qed.
End AnswerLookup.

(* ================================================================== *)
(** ** Rewriting an embedded element *)

Section SetElement.

Lemma set_nth_middle pre x y post :
  set_nth (List.length pre) y (pre ++ x :: post) = pre ++ y :: post.
Proof. induction pre as [|a r IH]; simpl; auto. now rewrite IH. Qed.

Lemma nth_error_middle (pre : list Value) x post :
  nth_error (pre ++ x :: post) (List.length pre) = Some x.
Proof. induction pre as [|a r IH]; simpl; auto. Qed.

Lemma obj_set_twice k v w fs : obj_set k w (obj_set k v fs) = obj_set k w fs.
Proof.
  induction fs as [|[k' x] r IH]; simpl.
  - now rewrite String.eqb_refl.
  - destruct (String.eqb k k') eqn:E; simpl; rewrite E; auto.
    now rewrite IH.
Qed.

Lemma indexed_first_hit eid pre x post i :
  Forall (fun a => element_has_id eid a = false) pre ->
  element_has_id eid x = true ->
  hd None (map (fun ix : nat * Value => Some (fst ix))
             (filter (fun ix => element_has_id eid (snd ix))
                (indexed i (pre ++ x :: post))))
  = Some (i + List.length pre)%nat.
Proof.
  intros F Hx. revert i.
  induction F as [|a r Ha _ IH]; intros i; cbn [app indexed filter snd].
  - rewrite Hx. cbn. f_equal. lia.
  - rewrite Ha, IH. cbn. f_equal. lia.
Qed.

Lemma hits_own_id id fs :
  lookup "_id" fs = Some (VStr id) ->
  hits ([Key "_id"], VStr id) (VObj fs) = [None].
Proof.
  intros L. unfold hits. cbn [fst snd reach]. rewrite L.
  cbn. now rewrite String.eqb_refl.
Qed.

(** The element a query on [arr._id] selects: the first with that id. *)
Lemma element_query_matches req arr eid fs pre efs post :
  lookup "_id" fs = Some (VStr (params_id req)) ->
  lookup arr fs = Some (VArr (pre ++ VObj efs :: post)) ->
  Forall (fun a => element_has_id eid a = false) pre ->
  lookup "_id" efs = Some (VStr eid) ->
  matches (element_query req arr eid) (VObj fs) = true /\
  forall r, positional r (element_query req arr eid) (VObj fs)
            = Some (List.length pre).
Proof.
  intros Hi La Hp He.
  assert (Hx : element_has_id eid (VObj efs) = true).
  { unfold element_has_id. rewrite He. apply value_eqb_refl. }
  pose proof (indexed_first_hit eid pre (VObj efs) post 0 Hp Hx) as Hh.
  rewrite <- (hits_in_array arr eid fs _ La) in Hh. cbn [Nat.add] in Hh.
  split.
  - unfold matches, element_query. cbn [forallb]. unfold holds.
    rewrite (hits_own_id _ _ Hi).
    destruct (hits ([Key arr; Key "_id"], VStr eid) (VObj fs)); [discriminate|].
    reflexivity.
  - intros r. unfold positional, element_query. cbn [map].
    rewrite (hits_own_id _ _ Hi), Hh.
    now destruct r.
Qed.

Lemma set_in_element pos arr k v fs items n efs :
  pos = Some n ->
  lookup arr fs = Some (VArr items) ->
  nth_error items n = Some (VObj efs) ->
  apply_modifier pos (MSet [Key arr; Pos; Key k] v) (VObj fs)
  = Some (VObj (obj_set arr (VArr (set_nth n (VObj (obj_set k v efs)) items)) fs)).
Proof.
  intros -> La Hn. unfold apply_modifier. cbn [modifier_path alter].
  rewrite La. cbn [option_map]. rewrite Hn. reflexivity.
Qed.

Lemma element_doc_applies req arr fs pre efs post :
  lookup arr fs = Some (VArr (pre ++ VObj efs :: post)) ->
  apply_modifiers (Some (List.length pre)) (element_doc req arr) (VObj fs)
  = Some (VObj (obj_set arr (VArr (pre ++ VObj (rewritten req efs) :: post)) fs)).
Proof.
  intros La. unfold element_doc. cbn [apply_modifiers].
  rewrite (set_in_element _ arr "content" _ fs _ (List.length pre) efs
             eq_refl La (nth_error_middle _ _ _)).
  rewrite set_nth_middle.
  rewrite (set_in_element _ arr "user" _ _ _ (List.length pre) _
             eq_refl (lookup_obj_set_same _ _ _) (nth_error_middle _ _ _)).
  now rewrite set_nth_middle, obj_set_twice.
Qed.

Lemma element_update_run req arr eid st before fs after pre efs post :
  arr <> "_id" ->
  store_up st ->
  docs st = before ++ VObj fs :: after ->
  Forall (fun d => matches (by_id (params_id req)) d = false) before ->
  lookup "_id" fs = Some (VStr (params_id req)) ->
  lookup arr fs = Some (VArr (pre ++ VObj efs :: post)) ->
  Forall (fun a => element_has_id eid a = false) pre ->
  lookup "_id" efs = Some (VStr eid) ->
  let q' := VObj (obj_set arr (VArr (pre ++ VObj (rewritten req efs) :: post)) fs) in
  conditional req (element_query req arr eid) (element_doc req arr) st
  = (say (RJson q') (say (RStatus 200)
       (advance (CFindById (params_id req))
          (set_docs (before ++ q' :: after)
             (advance (CUpdate (element_query req arr eid) (element_doc req arr))
                st)))),
     inr VNull).
Proof.
  intros Na U D Hb Hi La Hp He q'.
  destruct (element_query_matches req arr eid fs pre efs post Hi La Hp He)
    as [Hm Hpos].
  eapply conditional_hit; eauto.
  - eapply Forall_impl; [|exact Hb].
    intros d Hd. unfold matches, element_query. cbn [forallb].
    unfold matches, by_id in Hd. cbn [forallb] in Hd.
    rewrite andb_true_r in Hd. now rewrite Hd.
  - rewrite Hpos. now apply element_doc_applies.
  - apply find_after_misses; auto.
    apply matches_by_id_intro.
    rewrite lookup_obj_set_other; [assumption|congruence].
Qed.

Lemma updateAnswer_conditional req :
  updateAnswer req
  = conditional req (element_query req "answers" (params_answerId req))
      (element_doc req "answers").
Proof. reflexivity. Qed.

Lemma updateComment_conditional req :
  updateComment req
  = conditional req (element_query req "comments" (params_commentId req))
      (element_doc req "comments").
Proof. reflexivity. Qed.

End SetElement.

(* ================================================================== *)
(** ** The properties *)

(** C1 (as the code behaves): when the acting user is not the stored owner,
    an update and a delete of a question issue no save and no remove and
    leave the collection as it was, as the claim says; but the response is
    not an empty 403: the handlers call send(403) and end(), which puts 403
    in the body and leaves the status alone, and the update goes on to
    saveUpdates with a null entity, whose exception is answered with
    status(500) and send(error) on the same response. *)
Theorem C1_stranger_gets_no_empty_403
    (st : State) (req : Request) (e : Value) (o : string) :
  store_up st ->
  find (matches (by_id (params_id req))) (docs st) = Some e ->
  owner_of e = Some o ->
  o <> u_id (user req) ->
  let up := fst (update req st) in
  let de := fst (destroy req st) in
  docs up = docs st /\
  calls up = calls st ++ [CFindById (params_id req)] /\
  sent up = sent st ++ forbidden_calls ++ [RStatus 500; RSend TypeError] /\
  docs de = docs st /\
  calls de = calls st ++ [CFindById (params_id req)] /\
  sent de = sent st ++ forbidden_calls /\
  response_of forbidden_calls
  = {| statusCode := 200; content := Some (VNum 403); finished := true |} /\
  response_of forbidden_calls <> response_of [RStatus 403; REnd].
Proof.
  intros U F O N up de.
  pose proof (found_truthy _ _ _ F) as T.
  assert (Hup : update req st
                = (say (RSend TypeError) (say (RStatus 500)
                     (say REnd (say (RSend (VNum 403))
                        (advance (CFindById (params_id req)) st)))),
                   inr VNull)).
  { unfold update, catch, bind.
    rewrite (findByIdAsync_up _ _ U), F. cbv beta iota.
    unfold handleEntityNotFound. rewrite T. cbn [negb]. unfold ret.
    rewrite (handleUnauthorized_stranger req _ _ _ T O N).
    reflexivity. }
  assert (Hde : destroy req st
                = (say REnd (say (RSend (VNum 403))
                     (advance (CFindById (params_id req)) st)), inr VNull)).
  { unfold destroy, catch, bind.
    rewrite (findByIdAsync_up _ _ U), F. cbv beta iota.
    unfold handleEntityNotFound. rewrite T. cbn [negb]. unfold ret.
    rewrite (handleUnauthorized_stranger req _ _ _ T O N).
    reflexivity. }
  subst up de. rewrite Hup, Hde. simpl.
  rewrite <- !app_assoc. simpl.
  repeat split; try reflexivity.
  discriminate.
Qed.

(** On the sample data: alice asks to update, and to delete, bob's question q1. *)
Lemma C1_stranger_gets_no_empty_403_witness :
  sent (fst (update (request alice [("title", VStr "x")])
                    (world FirstArrayCondition)))
  = [RSend (VNum 403); REnd; RStatus 500; RSend TypeError] /\
  sent (fst (destroy (request alice []) (world FirstArrayCondition)))
  = [RSend (VNum 403); REnd].
Proof.
  split.
  - apply (C1_stranger_gets_no_empty_403
             (world FirstArrayCondition)
             (request alice [("title", VStr "x")])
             q1 "bob");
      [constructor | reflexivity | reflexivity | discriminate].
  - apply (C1_stranger_gets_no_empty_403
             (world FirstArrayCondition)
             (request alice [])
             q1 "bob");
      [constructor | reflexivity | reflexivity | discriminate].
Defined.

(** C2: when the question with the given id has an answer (for
    updateAnswer) or a comment (for updateComment) with the given element id,
    the handler rewrites the first such element: its content becomes the
    content of the request body and its user the acting user, every other
    field of the element and every other element staying as they were;
    whoever owned the element before plays no part.  The question is then
    re-fetched and returned with status 200. *)
Theorem C2_update_embedded_overwrites_and_takes_over
    (st : State) (req : Request) (before after : list Value) (fs : Fields)
    (pre post : list Value) (efs : Fields) :
  store_up st ->
  docs st = before ++ VObj fs :: after ->
  Forall (fun d => matches (by_id (params_id req)) d = false) before ->
  lookup "_id" fs = Some (VStr (params_id req)) ->
  (lookup "answers" fs = Some (VArr (pre ++ VObj efs :: post)) ->
   Forall (fun a => element_has_id (params_answerId req) a = false) pre ->
   lookup "_id" efs = Some (VStr (params_answerId req)) ->
   let q' := VObj (obj_set "answers"
                     (VArr (pre ++ VObj (rewritten req efs) :: post)) fs) in
   docs (fst (updateAnswer req st)) = before ++ q' :: after /\
   sent (fst (updateAnswer req st)) = sent st ++ [RStatus 200; RJson q']) /\
  (lookup "comments" fs = Some (VArr (pre ++ VObj efs :: post)) ->
   Forall (fun a => element_has_id (params_commentId req) a = false) pre ->
   lookup "_id" efs = Some (VStr (params_commentId req)) ->
   let q' := VObj (obj_set "comments"
                     (VArr (pre ++ VObj (rewritten req efs) :: post)) fs) in
   docs (fst (updateComment req st)) = before ++ q' :: after /\
   sent (fst (updateComment req st)) = sent st ++ [RStatus 200; RJson q']) /\
  lookup "content" (rewritten req efs) = Some (field "content" (body req)) /\
  lookup "user" (rewritten req efs) = Some (VStr (u_id (user req))) /\
  (forall k, k <> "content" -> k <> "user" ->
             lookup k (rewritten req efs) = lookup k efs).
Proof.
  intros U D Hb Hi.
  split; [|split; [|split; [|split]]].
  - intros La Hp He q'.
    rewrite updateAnswer_conditional.
    rewrite (element_update_run req "answers" _ st before fs after pre efs post
               ltac:(discriminate) U D Hb Hi La Hp He).
    cbn [fst sent docs say advance set_docs]. now rewrite <- !app_assoc.
  - intros La Hp He q'.
    rewrite updateComment_conditional.
    rewrite (element_update_run req "comments" _ st before fs after pre efs post
               ltac:(discriminate) U D Hb Hi La Hp He).
    cbn [fst sent docs say advance set_docs]. now rewrite <- !app_assoc.
  - unfold rewritten.
    rewrite lookup_obj_set_other by discriminate.
    apply lookup_obj_set_same.
  - unfold rewritten. apply lookup_obj_set_same.
  - intros k N1 N2. unfold rewritten.
    now rewrite !lookup_obj_set_other.
Qed.

(** On the sample data: alice rewrites bob's answer a1 and becomes its user. *)
Lemma C2_update_embedded_overwrites_and_takes_over_witness :
  docs (fst (updateAnswer (request alice [("content", VStr "rewritten")])
                          (world LastArrayCondition)))
  = [VObj (obj_set "answers"
             (VArr [VObj [("_id", VStr "a1"); ("user", VStr "alice");
                          ("content", VStr "rewritten");
                          ("comments", VArr [c1; c2])]])
             q1_fields)].
Proof.
  destruct (C2_update_embedded_overwrites_and_takes_over
              (world LastArrayCondition)
              (request alice [("content", VStr "rewritten")])
              [] [] q1_fields [] []
              [("_id", VStr "a1"); ("user", VStr "bob");
               ("content", VStr "answer"); ("comments", VArr [c1; c2])])
    as (Ha & _).
  - constructor.
  - reflexivity.
  - constructor.
  - reflexivity.
  - destruct Ha as (Hd & _).
    + reflexivity.
    + constructor.
    + reflexivity.
    + exact Hd.
Defined.

(** C3 (as amended): when the question has no answer with the given id, the
    update of a comment under an answer answers 404 (by send(404)) after its
    find and issues no write call; the delete issues one conditional update,
    which matches no document and leaves the collection as it was, and
    answers 404 (by send(404)). *)
Theorem C3_missing_answer_changes_nothing
    (st : State) (req : Request) (q : Value) (answers : list Value) :
  store_up st ->
  filter (matches (by_id (params_id req))) (docs st) = [q] ->
  prop "answers" q = Some (VArr answers) ->
  Forall (fun a => exists s, id_string a = Some s /\ s <> params_answerId req)
         answers ->
  let up := fst (updateAnswerComment req st) in
  let de := fst (destroyAnswerComment req st) in
  sent up = sent st ++ not_found_sent /\
  calls up = calls st ++ [CFind (by_id (params_id req))] /\
  writes (calls up) = writes (calls st) /\
  docs up = docs st /\
  sent de = sent st ++ not_found_sent /\
  (exists q ms, calls de = calls st ++ [CUpdate q ms] /\ no_match q st) /\
  docs de = docs st.
Proof.
  intros U Hf Hp Ha up de. subst up de.
  rewrite (updateAnswerComment_no_answer req st q answers U Hf Hp Ha).
  pose proof (no_answer_no_match req st q answers Hf Hp Ha) as N.
  rewrite destroyAnswerComment_conditional.
  rewrite (conditional_no_match _ _ _ _ U N).
  cbn [fst sent calls docs say advance].
  rewrite <- !app_assoc.
  repeat split; auto.
  - unfold writes. rewrite filter_app. cbn [filter is_write]. apply app_nil_r.
  - eauto.
Qed.

(** On the sample data: a comment under an answer that question q1 does not have. *)
Lemma C3_missing_answer_changes_nothing_witness :
  sent (fst (updateAnswerComment (mkRequest "q1" "nowhere" "c1" [] alice)
                                 (world FirstArrayCondition)))
  = not_found_sent /\
  docs (fst (destroyAnswerComment (mkRequest "q1" "nowhere" "c1" [] alice)
                                  (world FirstArrayCondition)))
  = [q1].
Proof.
  destruct (C3_missing_answer_changes_nothing (world FirstArrayCondition)
              (mkRequest "q1" "nowhere" "c1" [] alice) q1 [a1])
    as (Hs & _ & _ & _ & _ & _ & Hd).
  - constructor.
  - reflexivity.
  - reflexivity.
  - repeat constructor. exists "a1". split; [reflexivity|discriminate].
  - split; [exact Hs | exact Hd].
Defined.

(** C3, counterexample: the delete of a comment under an answer id that the
    question does not have still issues its update call on the store. *)
Lemma C3_delete_under_missing_answer_issues_update :
  ~ nested_comment_without_answer_never_writes_as_stated.
Proof.
  intros H.
  destruct (H (world FirstArrayCondition)
              (mkRequest "q1" "nowhere" "c1" [] alice) q1 [a1]) as (_ & _ & W).
  - constructor.
  - reflexivity.
  - reflexivity.
  - repeat constructor. exists "a1". split; [reflexivity|discriminate].
  - vm_compute in W. discriminate W.
Qed.

(** C4 (as the code behaves): the conditions on the comment's id and on the
    comment's owner are two separate conditions on the answer's comment list,
    so they are satisfied by two different comments.  Under answer a1 of
    question q1, comment c1 is bob's and comment c2 is alice's; alice asks to
    update c1.  The update matches, a comment is rewritten (c1, which is not
    hers, or c2, which does not have the id, depending on which condition the
    store takes the position from) and the response is status 200 with the
    changed question, where the claim has the document unchanged and a 404. *)
Theorem C4_conditions_met_by_different_comments :
  q1 = q1_with [c1; c2] /\
  c1 = VObj [("_id", VStr "c1"); ("user", VStr "bob"); ("content", VStr "first")] /\
  c2 = VObj [("_id", VStr "c2"); ("user", VStr "alice"); ("content", VStr "second")] /\
  updateAnswerComment (request alice [("content", VStr "taken over")])
                      (world FirstArrayCondition)
  = ({| docs := [q1_with [taken_over "c1" "bob"; c2]];
        faults := []; next_id := 0; rule := FirstArrayCondition;
        calls := [CFind (by_id "q1");
                  CUpdate (comment_conditions
                             (request alice [("content", VStr "taken over")]) 0)
                          (comment_doc
                             (request alice [("content", VStr "taken over")]) 0);
                  CFindById "q1"];
        sent := [RStatus 200; RJson (q1_with [taken_over "c1" "bob"; c2])] |},
     inr VNull) /\
  updateAnswerComment (request alice [("content", VStr "taken over")])
                      (world LastArrayCondition)
  = ({| docs := [q1_with [c1; taken_over "c2" "alice"]];
        faults := []; next_id := 0; rule := LastArrayCondition;
        calls := [CFind (by_id "q1");
                  CUpdate (comment_conditions
                             (request alice [("content", VStr "taken over")]) 0)
                          (comment_doc
                             (request alice [("content", VStr "taken over")]) 0);
                  CFindById "q1"];
        sent := [RStatus 200; RJson (q1_with [c1; taken_over "c2" "alice"])] |},
     inr VNull).
Proof.
  repeat split; vm_compute; reflexivity.
Qed.

(** C5 (as amended): the delete of an answer, and of a comment on the
    question, removes from the question's list exactly the elements that have
    both the given id and the acting user as owner, then re-fetches and
    returns the question with status 200, also when nothing was removed
    because the element is absent or is someone else's (the question is then
    unchanged); the matched count is 0, and the answer is send(404), only
    when no question has the given id. *)
Theorem C5_delete_embedded_pulls_own_element (st : State) (req : Request) :
  store_up st ->
  (no_match (by_id (params_id req)) st ->
   sent (fst (destroyAnswer req st)) = sent st ++ not_found_sent /\
   docs (fst (destroyAnswer req st)) = docs st /\
   sent (fst (destroyComment req st)) = sent st ++ not_found_sent /\
   docs (fst (destroyComment req st)) = docs st) /\
  (forall before fs after,
     docs st = before ++ VObj fs :: after ->
     Forall (fun d => matches (by_id (params_id req)) d = false) before ->
     lookup "_id" fs = Some (VStr (params_id req)) ->
     (forall answers,
        lookup "answers" fs = Some (VArr answers) ->
        let kept :=
          filter (fun e => negb (matches (owned_by (params_answerId req) req) e))
                 answers in
        let q' := VObj (obj_set "answers" (VArr kept) fs) in
        docs (fst (destroyAnswer req st)) = before ++ q' :: after /\
        sent (fst (destroyAnswer req st)) = sent st ++ [RStatus 200; RJson q'] /\
        (Forall (fun e => matches (owned_by (params_answerId req) req) e = false)
                answers -> q' = VObj fs)) /\
     (forall comments,
        lookup "comments" fs = Some (VArr comments) ->
        let kept :=
          filter (fun e => negb (matches (owned_by (params_commentId req) req) e))
                 comments in
        let q' := VObj (obj_set "comments" (VArr kept) fs) in
        docs (fst (destroyComment req st)) = before ++ q' :: after /\
        sent (fst (destroyComment req st)) = sent st ++ [RStatus 200; RJson q'] /\
        (Forall (fun e => matches (owned_by (params_commentId req) req) e = false)
                comments -> q' = VObj fs))) /\
  (forall eid efs,
     matches (owned_by eid req) (VObj efs) = true
     <-> lookup "_id" efs = Some (VStr eid) /\ lookup "user" efs = Some (uid req)).
Proof.
  intros U.
  split; [|split; [|intros; apply owned_by_object]].
  - intros N.
    rewrite destroyAnswer_conditional, destroyComment_conditional.
    rewrite !(conditional_no_match _ _ _ _ U N).
    cbn [fst sent docs say advance]. rewrite <- !app_assoc. auto.
  - intros before fs after D Hb Hi.
    split.
    + intros answers La kept q'.
      rewrite destroyAnswer_conditional.
      rewrite (pull_hit req "answers" _ st before fs after answers
                 ltac:(discriminate) U D Hb Hi La).
      cbn [fst sent docs say advance set_docs]. rewrite <- !app_assoc.
      repeat split.
      intros Hn. subst q' kept.
      rewrite filter_all.
      * now rewrite obj_set_same.
      * eapply Forall_impl; [|exact Hn]. intros e He. cbv beta in *. now rewrite He.
    + intros comments La kept q'.
      rewrite destroyComment_conditional.
      rewrite (pull_hit req "comments" _ st before fs after comments
                 ltac:(discriminate) U D Hb Hi La).
      cbn [fst sent docs say advance set_docs]. rewrite <- !app_assoc.
      repeat split.
      intros Hn. subst q' kept.
      rewrite filter_all.
      * now rewrite obj_set_same.
      * eapply Forall_impl; [|exact Hn]. intros e He. cbv beta in *. now rewrite He.
Qed.

(** On the sample data: bob deletes his answer a1; alice asks to delete it and gets the
    unchanged question back. *)
Lemma C5_delete_embedded_pulls_own_element_witness :
  docs (fst (destroyAnswer (request bob []) (world FirstArrayCondition)))
  = [VObj (obj_set "answers" (VArr []) q1_fields)] /\
  sent (fst (destroyAnswer (request alice []) (world FirstArrayCondition)))
  = [RStatus 200; RJson q1].
Proof.
  split.
  - destruct (C5_delete_embedded_pulls_own_element (world FirstArrayCondition)
                (request bob [])) as (_ & H & _); [constructor|].
    destruct (H [] q1_fields [] eq_refl (Forall_nil _) eq_refl) as (Ha & _).
    destruct (Ha [a1] eq_refl) as (Hd & _).
    exact Hd.
  - destruct (C5_delete_embedded_pulls_own_element (world FirstArrayCondition)
                (request alice [])) as (_ & H & _); [constructor|].
    destruct (H [] q1_fields [] eq_refl (Forall_nil _) eq_refl) as (Ha & _).
    destruct (Ha [a1] eq_refl) as (_ & Hs & _).
    exact Hs.
Defined.

(** C5, counterexample: alice asks to delete bob's answer a1 of question q1;
    no answer has both that id and alice as owner, yet the update matched the
    question, and the response is status 200 with the unchanged question, not
    the 404 one. *)
Lemma C5_delete_of_unowned_answer_is_200 :
  ~ delete_of_unowned_answer_is_404_as_stated.
Proof.
  intros H.
  specialize (H (world FirstArrayCondition) (request alice []) q1_fields [a1]).
  assert (U : store_up (world FirstArrayCondition)) by constructor.
  specialize (H U eq_refl eq_refl).
  assert (N : Forall
                (fun e => matches (owned_by (params_answerId (request alice []))
                                            (request alice [])) e = false) [a1])
    by (repeat constructor).
  specialize (H N).
  vm_compute in H. discriminate H.
Qed.

(** C6: whenever the store accepts the new question, the handler answers
    with status 201 and the created document, the document is in the
    collection, and its [user] field is the acting user of the request,
    whatever [user] field the payload carried. *)
Theorem C6_create_sets_owner
    (st st1 : State) (req : Request) (doc : Value) :
  Question.create (obj_set "user" (user_doc (user req)) (body req)) st
  = (st1, inr doc) ->
  let st' := fst (create req st) in
  sent st' = sent st ++ [RStatus 201; RJson doc] /\
  response_of [RStatus 201; RJson doc]
  = {| statusCode := 201; content := Some doc; finished := true |} /\
  In doc (docs st') /\
  prop "user" doc = Some (user_doc (user req)) /\
  owner_of doc = Some (u_id (user req)).
Proof.
  intros C st'.
  pose proof (create_result _ _ _ _ C) as (Hd & Hdocs & Hsent & _).
  pose proof (created_truthy _ _ _ _ C) as T.
  assert (Hu : prop "user" doc = Some (user_doc (user req))).
  { destruct Hd as [->|[i ->]]; simpl; f_equal.
    - apply field_obj_set_same.
    - unfold field; simpl.
      rewrite lookup_obj_del_other by discriminate.
      now rewrite lookup_obj_set_same. }
  assert (Hrun : create req st
                 = (say (RJson doc) (say (RStatus 201) st1), inr VNull)).
  { unfold create, catch, bind. rewrite C. cbv beta iota.
    unfold respondWithResult. now rewrite T. }
  subst st'. rewrite Hrun; simpl.
  rewrite Hsent, Hdocs, <- app_assoc.
  repeat split; auto.
  - apply in_or_app. right. now left.
  - unfold owner_of. rewrite Hu. reflexivity.
Qed.

(** On the sample data: alice creates a question whose payload names bob as its user. *)
Lemma C6_create_sets_owner_witness :
  exists doc,
    sent (fst (create (request alice [("title", VStr "mine"); ("user", VStr "bob")])
                      (world FirstArrayCondition)))
    = [RStatus 201; RJson doc] /\
    prop "user" doc = Some (user_doc alice).
Proof.
  eexists.
  refine (let H := C6_create_sets_owner (world FirstArrayCondition) _
                     (request alice [("title", VStr "mine"); ("user", VStr "bob")])
                     _ eq_refl in _).
  destruct H as (Hs & _ & _ & Hu & _).
  split; [exact Hs | exact Hu].
Defined.

(** C7 (as amended): on an update by the owner, a truthy [_id] of the
    payload is removed before the merge and no other field is, while a
    payload whose [_id] is falsy is merged as it came, its [_id] included:
    the saved document then carries the supplied falsy [_id].  What is saved
    and returned with status 200 keeps every field the payload does not name,
    gives every field the payload names the merge of the stored and the
    supplied value, and that is the supplied value itself when it is a
    scalar; without an [_id] in the merged payload the saved document takes
    the place of the stored one. *)
Theorem C7_owner_update_merges_payload
    (st : State) (req : Request) (fs : Fields) :
  store_up st ->
  find (matches (by_id (params_id req))) (docs st) = Some (VObj fs) ->
  owner_of (VObj fs) = Some (u_id (user req)) ->
  NoDup (keys (body req)) ->
  let payload := strip_id (body req) in
  let st' := fst (update req st) in
  (truthy (field "_id" (body req)) = true -> lookup "_id" payload = None) /\
  (forall k, k <> "_id" -> lookup k payload = lookup k (body req)) /\
  (truthy (field "_id" (body req)) = true ->
   payload = obj_del "_id" (body req)) /\
  (truthy (field "_id" (body req)) = false -> payload = body req) /\
  exists saved,
    calls st' = calls st ++ [CFindById (params_id req); CSave (VObj saved)] /\
    sent st' = sent st ++ [RStatus 200; RJson (VObj saved)] /\
    (forall k, lookup k payload = None -> lookup k saved = lookup k fs) /\
    (forall k v, lookup k payload = Some v ->
                 lookup k saved = Some (merge (field k fs) v)) /\
    (forall k v, lookup k payload = Some v -> is_scalar v = true ->
                 lookup k saved = Some v) /\
    (lookup "_id" payload = None ->
     docs st' = replace_first (matches (by_id (params_id req))) (VObj saved)
                  (docs st)) /\
    (forall v, lookup "_id" (body req) = Some v -> truthy v = false ->
               lookup "_id" saved = Some v) /\
    (forall v, lookup "_id" (body req) = Some v -> truthy v = true ->
               lookup "_id" saved = lookup "_id" fs).
Proof.
  intros U F O ND payload st'.
  split; [apply strip_id_truthy|].
  split; [intros k; apply strip_id_other|].
  split; [apply strip_id_of_truthy|].
  split; [apply strip_id_of_falsy|].
  subst payload st'.
  exists (merge_fields (strip_id (body req)) fs).
  rewrite (update_by_owner req st fs U F O).
  cbn [fst calls sent docs say set_docs advance].
  rewrite <- !app_assoc. cbn [app].
  pose proof (NoDup_keys_strip_id _ ND) as ND'.
  assert (Hp : forall k v, lookup k (strip_id (body req)) = Some v ->
                 lookup k (merge_fields (strip_id (body req)) fs)
                 = Some (merge (field k fs) v))
    by (intros; now apply merge_fields_provided).
  assert (Hf : forall k, lookup k (strip_id (body req)) = None ->
                 lookup k (merge_fields (strip_id (body req)) fs) = lookup k fs).
  { intros k L. apply merge_fields_frame. now apply lookup_None_not_in. }
  split; [reflexivity|]. split; [reflexivity|].
  split; [exact Hf|]. split; [exact Hp|].
  split; [|split; [|split]].
  - intros k v L S. rewrite (Hp _ _ L). now rewrite merge_scalar.
  - intros L. unfold Question.doc_id, field. rewrite (Hf _ L).
    apply find_some in F as [_ F].
    now rewrite (matches_by_id_object _ _ F).
  - intros v L T.
    assert (T' : truthy (field "_id" (body req)) = false)
      by (unfold field; now rewrite L).
    rewrite (Hp "_id" v) by (now rewrite (strip_id_of_falsy _ T')).
    now rewrite (merge_scalar _ _ (falsy_is_scalar _ T)).
  - intros v L T.
    assert (T' : truthy (field "_id" (body req)) = true)
      by (unfold field; now rewrite L).
    apply Hf. now apply strip_id_truthy.
Qed.

(** On the sample data: bob updates the title of q1 and sends another
    identifier along; then he sends the number 0 as the identifier. *)
Lemma C7_owner_update_merges_payload_witness :
  (exists saved,
     calls (fst (update (request bob [("_id", VStr "other"); ("title", VStr "new")])
                        (world FirstArrayCondition)))
     = [CFindById "q1"; CSave (VObj saved)] /\
     lookup "_id" saved = Some (VStr "q1") /\
     lookup "title" saved = Some (VStr "new") /\
     lookup "answers" saved = lookup "answers" q1_fields) /\
  (exists saved,
     calls (fst (update (request bob [("_id", VNum 0); ("title", VStr "new")])
                        (world FirstArrayCondition)))
     = [CFindById "q1"; CSave (VObj saved)] /\
     lookup "_id" saved = Some (VNum 0)).
Proof.
  split.
  - destruct (C7_owner_update_merges_payload (world FirstArrayCondition)
                (request bob [("_id", VStr "other"); ("title", VStr "new")])
                q1_fields)
      as (_ & _ & _ & _ & saved & Hc & _ & Hf & _ & Hs & _).
    + constructor.
    + reflexivity.
    + reflexivity.
    + repeat constructor; simpl; intuition discriminate.
    + exists saved. split; [exact Hc|].
      split; [|split].
      * now rewrite (Hf "_id" eq_refl).
      * now apply Hs.
      * now apply Hf.
  - destruct (C7_owner_update_merges_payload (world FirstArrayCondition)
                (request bob [("_id", VNum 0); ("title", VStr "new")])
                q1_fields)
      as (_ & _ & _ & _ & saved & Hc & _ & _ & _ & _ & _ & Hz & _).
    + constructor.
    + reflexivity.
    + reflexivity.
    + repeat constructor; simpl; intuition discriminate.
    + exists saved. split; [exact Hc|].
      now apply Hz.
Defined.

(** C7, counterexample: an owner's update whose payload carries the empty
    string, a falsy value, as its identifier saves a document whose [_id] is
    the empty string: the field was not removed before the merge. *)
Lemma C7_falsy_identifier_is_merged : ~ update_strips_identifier_as_stated.
Proof.
  intros H.
  specialize (H (world FirstArrayCondition)
                (request bob [("_id", VStr EmptyString); ("title", VStr "new")])
                q1_fields).
  assert (U : store_up (world FirstArrayCondition)) by constructor.
  specialize (H U eq_refl eq_refl).
  assert (ND : NoDup (keys (body (request bob [("_id", VStr EmptyString); ("title", VStr "new")])))).
  { repeat constructor; simpl; intuition discriminate. }
  specialize (H ND).
  vm_compute in H. discriminate H.
Qed.

(** C8: the list operation answers 200 with at most 20 stored questions,
    newest first; when the store holds more than 20 questions with distinct
    creation timestamps, these are exactly 20, strictly newest first, and
    every question left out is older than every question returned. *)
Theorem C8_index_twenty_most_recent (st : State) (req : Request) :
  store_up st ->
  exists l rest,
    sent (fst (index req st)) = sent st ++ [RStatus 200; RJson (VArr l)] /\
    docs (fst (index req st)) = docs st /\
    Permutation (l ++ rest) (docs st) /\
    List.length l <= 20 /\
    StronglySorted newer_or_same l /\
    (20 < List.length (docs st) -> NoDup (map created (docs st)) ->
     List.length l = 20 /\
     StronglySorted newer l /\
     forall d x, In d (docs st) -> ~ In d l -> In x l -> newer x d).
Proof.
  intros U.
  exists (firstn 20 (sort_desc (docs st))), (skipn 20 (sort_desc (docs st))).
  rewrite (index_up req _ U); cbn [fst sent docs say advance].
  pose proof (sort_desc_perm (docs st)) as P.
  pose proof (sort_desc_sorted (docs st)) as S.
  split; [now rewrite <- app_assoc|].
  split; [reflexivity|].
  split; [rewrite firstn_skipn; exact P|].
  split; [apply firstn_le_length|].
  split; [now apply sorted_firstn|].
  intros Hlen ND.
  assert (S' : StronglySorted newer (sort_desc (docs st))).
  { apply sorted_strict; auto.
    eapply Permutation_NoDup; [|eassumption].
    apply Permutation_map. now symmetry. }
  split; [|split].
  - apply firstn_length_le.
    rewrite (Permutation_length P). lia.
  - now apply sorted_firstn.
  - intros d x Hd Hn Hx.
    assert (Hs : In d (skipn 20 (sort_desc (docs st)))).
    { apply (Permutation_in _ (Permutation_sym P)) in Hd.
      rewrite <- (firstn_skipn 20) in Hd.
      apply in_app_or in Hd as [Hd|Hd]; tauto. }
    rewrite <- (firstn_skipn 20) in S'.
    eapply sorted_split; eauto.
Qed.

(** On the sample data: of twenty-five questions, the one created at time 5 is left out
    and is older than all that are returned. *)
Lemma C8_index_twenty_most_recent_witness :
  exists l,
    sent (fst (index (request alice []) crowded)) = [RStatus 200; RJson (VArr l)] /\
    List.length l = 20 /\
    StronglySorted newer l /\
    newer_or_same (stamped 6) (stamped 5) /\
    forall x, In x l -> newer x (stamped 5).
Proof.
  destruct (C8_index_twenty_most_recent crowded (request alice []))
    as (l & rest & Hs & _ & _ & _ & _ & H).
  { constructor. }
  destruct H as (Hl & Hn & Hd).
  { simpl. lia. }
  { repeat constructor; simpl; intuition discriminate. }
  exists l. repeat split; auto.
  intros x Hx. apply Hd; auto.
  - simpl. tauto.
  - intros Hin. revert Hs Hin. vm_compute.
    intros [= <-]. intuition discriminate.
Defined.

(** C9: the update removes a truthy [_id] from the payload and nothing else
    (a payload whose [_id] is not truthy goes to the merge as it came); a
    [user] field of the payload is merged into the stored document like any
    other field, so when it is a user object with identifier [u2] the
    document saved and returned is owned by [u2], and, when the payload had
    no [_id] or a truthy one, it is stored under the question's id in the
    place of the old one. *)
Theorem C9_owner_update_can_reassign_owner
    (st : State) (req : Request) (fs ufs : Fields) (u2 : string) :
  store_up st ->
  find (matches (by_id (params_id req))) (docs st) = Some (VObj fs) ->
  owner_of (VObj fs) = Some (u_id (user req)) ->
  NoDup (keys (body req)) ->
  lookup "user" (body req) = Some (VObj ufs) ->
  NoDup (keys ufs) ->
  lookup "_id" ufs = Some (VStr u2) ->
  let st' := fst (update req st) in
  (forall k, k <> "_id" -> lookup k (strip_id (body req)) = lookup k (body req)) /\
  (truthy (field "_id" (body req)) = true ->
   strip_id (body req) = obj_del "_id" (body req) /\
   lookup "_id" (strip_id (body req)) = None) /\
  (truthy (field "_id" (body req)) = false -> strip_id (body req) = body req) /\
  lookup "user" (strip_id (body req)) = Some (VObj ufs) /\
  exists saved,
    calls st' = calls st ++ [CFindById (params_id req); CSave (VObj saved)] /\
    sent st' = sent st ++ [RStatus 200; RJson (VObj saved)] /\
    lookup "user" saved = Some (merge (field "user" fs) (VObj ufs)) /\
    owner_of (VObj saved) = Some u2 /\
    (lookup "_id" (strip_id (body req)) = None ->
     find (matches (by_id (params_id req))) (docs st') = Some (VObj saved)) /\
    (truthy (field "_id" (body req)) = true \/ lookup "_id" (body req) = None ->
     lookup "_id" saved = Some (VStr (params_id req)) /\
     docs st' = replace_first (matches (by_id (params_id req))) (VObj saved)
                  (docs st) /\
     find (matches (by_id (params_id req))) (docs st') = Some (VObj saved)).
Proof.
  intros U F O ND Lu NDu Li st'.
  split; [intros k; apply strip_id_other|].
  split; [intros T; split; [now apply strip_id_of_truthy|now apply strip_id_truthy]|].
  split; [apply strip_id_of_falsy|].
  assert (Lu' : lookup "user" (strip_id (body req)) = Some (VObj ufs))
    by (rewrite strip_id_other; [assumption|discriminate]).
  split; [exact Lu'|].
  subst st'.
  exists (merge_fields (strip_id (body req)) fs).
  rewrite (update_by_owner req st fs U F O).
  cbn [fst calls sent docs say set_docs advance].
  rewrite <- !app_assoc. cbn [app].
  pose proof (NoDup_keys_strip_id _ ND) as ND'.
  assert (Hu : lookup "user" (merge_fields (strip_id (body req)) fs)
               = Some (merge (field "user" fs) (VObj ufs)))
    by now apply merge_fields_provided.
  pose proof F as F'. apply find_some in F' as [Hin Hm].
  assert (Hid : lookup "_id" (strip_id (body req)) = None ->
                lookup "_id" (merge_fields (strip_id (body req)) fs)
                = Some (VStr (params_id req))).
  { intros L. rewrite merge_fields_frame by now apply lookup_None_not_in.
    now apply matches_by_id_object. }
  assert (Hfind : lookup "_id" (strip_id (body req)) = None ->
                  find (matches (by_id (params_id req)))
                    (replace_first
                       (Question.has_id
                          (Question.doc_id
                             (VObj (merge_fields (strip_id (body req)) fs))))
                       (VObj (merge_fields (strip_id (body req)) fs)) (docs st))
                  = Some (VObj (merge_fields (strip_id (body req)) fs))).
  { intros L. unfold Question.doc_id, field. rewrite (Hid L).
    apply find_replace_first.
    - apply matches_by_id_intro. exact (Hid L).
    - eauto. }
  split; [reflexivity|].
  split; [reflexivity|].
  split; [exact Hu|].
  split; [|split].
  - unfold owner_of, prop, field at 1. rewrite Hu, merge_object.
    unfold field at 1.
    rewrite (merge_fields_provided "_id" (VStr u2)) by assumption.
    reflexivity.
  - exact Hfind.
  - intros H. pose proof (strip_id_without_id _ H) as L.
    split; [exact (Hid L)|]. split; [|exact (Hfind L)].
    unfold Question.doc_id, field. now rewrite (Hid L).
Qed.

(** On the sample data: bob hands question q1 over to alice, sending an
    identifier of his own choice along. *)
Lemma C9_owner_update_can_reassign_owner_witness :
  exists saved,
    sent (fst (update (request bob [("_id", VStr "other");
                                    ("user", VObj [("_id", VStr "alice")])])
                      (world FirstArrayCondition)))
    = [RStatus 200; RJson (VObj saved)] /\
    owner_of (VObj saved) = Some "alice" /\
    lookup "_id" saved = Some (VStr "q1") /\
    docs (fst (update (request bob [("_id", VStr "other");
                                    ("user", VObj [("_id", VStr "alice")])])
                      (world FirstArrayCondition)))
    = [VObj saved].
Proof.
  destruct (C9_owner_update_can_reassign_owner (world FirstArrayCondition)
              (request bob [("_id", VStr "other");
                            ("user", VObj [("_id", VStr "alice")])])
              q1_fields [("_id", VStr "alice")] "alice")
    as (_ & _ & _ & _ & saved & _ & Hs & _ & Ho & _ & Hr).
  - constructor.
  - reflexivity.
  - reflexivity.
  - repeat constructor; simpl; intuition discriminate.
  - reflexivity.
  - repeat constructor; simpl; intuition discriminate.
  - reflexivity.
  - destruct Hr as (Hi & Hd & _); [left; reflexivity|].
    exists saved. split; [exact Hs|]. split; [exact Ho|]. split; [exact Hi|].
    rewrite Hd. reflexivity.
Defined.

(** C10: when its conditional update matches nothing (for the update of a
    comment under an answer: when its find, its scan of the answers or its
    conditional update matches nothing), a nested handler calls send(404) and
    then end() on the response: a response whose body is the
    value 404 and whose status stays at the default 200.  The top-level
    handlers answer a missing question with status(404) and end(): an empty
    response with status 404 (the update handler then still runs into
    saveUpdates with the null entity, after the response is finished). *)
Theorem C10_not_found_sent_versus_status (st : State) (req : Request) :
  store_up st ->
  (forall h q, In (h, q) nested_handlers -> no_match (q req) st ->
     sent (fst (h req st)) = sent st ++ not_found_sent /\
     docs (fst (h req st)) = docs st) /\
  (forall q answers,
     filter (matches (by_id (params_id req))) (docs st) = [q] ->
     prop "answers" q = Some (VArr answers) ->
     Forall (fun a => exists s, id_string a = Some s /\ s <> params_answerId req)
            answers ->
     sent (fst (updateAnswerComment req st)) = sent st ++ not_found_sent) /\
  (forall q pre a post,
     filter (matches (by_id (params_id req))) (docs st) = [q] ->
     prop "answers" q = Some (VArr (pre ++ a :: post)) ->
     Forall (fun a => exists s, id_string a = Some s /\ s <> params_answerId req)
            pre ->
     id_string a = Some (params_answerId req) ->
     Forall (fun a => exists s, id_string a = Some s /\ s <> params_answerId req)
            post ->
     no_match (comment_conditions req (List.length pre)) st ->
     sent (fst (updateAnswerComment req st)) = sent st ++ not_found_sent /\
     docs (fst (updateAnswerComment req st)) = docs st) /\
  (no_match (by_id (params_id req)) st ->
     sent (fst (updateAnswerComment req st)) = sent st ++ not_found_sent /\
     sent (fst (show req st)) = sent st ++ not_found_status /\
     sent (fst (destroy req st)) = sent st ++ not_found_status /\
     sent (fst (update req st))
     = sent st ++ not_found_status ++ [RStatus 500; RSend TypeError]) /\
  response_of not_found_sent
  = {| statusCode := 200; content := Some (VNum 404); finished := true |} /\
  response_of not_found_status
  = {| statusCode := 404; content := None; finished := true |} /\
  response_of (not_found_status ++ [RStatus 500; RSend TypeError])
  = {| statusCode := 404; content := None; finished := true |}.
Proof.
  intros U.
  split; [|split; [|split; [|split; [|repeat split]]]].
  - intros h q I N.
    destruct (nested_handler_no_match h q req st I U N) as [ms ->].
    cbn [fst sent docs say advance]. now rewrite <- app_assoc.
  - intros q answers Hf Hp Ha.
    rewrite (updateAnswerComment_no_answer req st q answers U Hf Hp Ha).
    cbn [fst sent say advance]. now rewrite <- app_assoc.
  - intros q pre a post Hf Hp Fp Ha Fq N.
    rewrite (updateAnswerComment_no_comment req st q pre a post U Hf Hp Fp Ha Fq N).
    cbn [fst sent docs say advance]. now rewrite <- app_assoc.
  - intros N.
    rewrite (updateAnswerComment_no_question _ _ U N).
    destruct (top_level_missing _ _ U N) as (-> & -> & ->).
    cbn [fst sent say advance]. rewrite <- !app_assoc. auto.
Qed.

(** On the sample data: an answer for, and a look at, a question that does not exist. *)
Lemma C10_not_found_sent_versus_status_witness :
  sent (fst (createAnswer (mkRequest "nowhere" "a1" "c1" [] alice)
                          (world FirstArrayCondition)))
  = not_found_sent /\
  sent (fst (show (mkRequest "nowhere" "a1" "c1" [] alice)
                  (world FirstArrayCondition)))
  = not_found_status.
Proof.
  destruct (C10_not_found_sent_versus_status (world FirstArrayCondition)
              (mkRequest "nowhere" "a1" "c1" [] alice))
    as (Hn & _ & _ & Ht & _).
  { constructor. }
  split.
  - apply (Hn createAnswer (fun req => [([Key "_id"], VStr (params_id req))])).
    + left. reflexivity.
    + repeat constructor.
  - apply Ht. repeat constructor.
Defined.

(* ================================================================== *)
(** ** Further properties of the handlers *)

Section StoreFailure.

Lemma log_tick_down {A : Type} c (k : M A) e st :
  fails_after 0 e st ->
  (Question.log c ;; Question.tick ;; k) st = (advance c st, inl e).
Proof.
  intros (r & F). destruct st as [ds fs n ru cs ss]. simpl in F. subst fs.
  reflexivity.
Qed.

Lemma fails_after_advance n e c st :
  fails_after (S n) e st ->
  fails_after n e (advance c st) /\
  exists o r, faults st = o :: r /\ o = None.
Proof.
  intros (r & F). split.
  - exists r. unfold advance; simpl. rewrite F. reflexivity.
  - exists None, (repeat None n ++ Some e :: r). split; auto.
Qed.

Lemma log_tick_pass {A : Type} c (k : M A) n e st :
  fails_after (S n) e st ->
  (Question.log c ;; Question.tick ;; k) st = k (advance c st).
Proof.
  intros (r & F). destruct st as [ds fs m ru cs ss]. simpl in F. subst fs.
  reflexivity.
Qed.

Lemma conditional_down req q ms e st :
  fails_after 0 e st ->
  conditional req q ms st
  = (say (RSend e) (say (RStatus 500) (advance (CUpdate q ms) st)), inr VNull).
Proof.
  intros F. unfold conditional, bind at 1, attempt, Question.update.
  now rewrite (log_tick_down _ _ e st F).
Qed.

Lemma updateAnswerComment_down req e st :
  fails_after 0 e st ->
  updateAnswerComment req st
  = (say (RSend e) (say (RStatus 500)
       (advance (CFind (by_id (params_id req))) st)), inr VNull).
Proof.
  intros F. unfold updateAnswerComment, bind at 1, attempt, Question.find_all.
  now rewrite (log_tick_down _ _ e st F).
Qed.

End StoreFailure.

(** X1: when the store fails the first call a handler makes, every one of
    the fourteen handlers answers status(500) with the store's error as the
    body, makes no further store call, and the collection is as it was. *)
Theorem X1_store_failure_is_500
    (h : Request -> M Value) (req : Request) (st : State) (e : Value) :
  In h handlers ->
  fails_after 0 e st ->
  sent (fst (h req st)) = sent st ++ failure_calls e /\
  docs (fst (h req st)) = docs st /\
  List.length (calls (fst (h req st))) = S (List.length (calls st)).
Proof.
  intros I F.
  assert (Hc : forall q ms req',
             sent (fst (conditional req' q ms st)) = sent st ++ failure_calls e /\
             docs (fst (conditional req' q ms st)) = docs st /\
             List.length (calls (fst (conditional req' q ms st)))
             = S (List.length (calls st))).
  { intros q ms req'. rewrite (conditional_down req' q ms e st F).
    cbn [fst sent docs calls say advance]. rewrite <- app_assoc, length_app.
    cbn. repeat split; auto. lia. }
  assert (Hk : forall c (m : M Value),
             m st = (advance c st, inl e) ->
             let r := catch m (handleError None) st in
             sent (fst r) = sent st ++ failure_calls e /\
             docs (fst r) = docs st /\
             List.length (calls (fst r)) = S (List.length (calls st))).
  { intros c m Hm. unfold catch. rewrite Hm.
    cbn [fst sent docs calls say advance handleError or_default bind Res.status
         Res.send Res.call ret].
    rewrite <- app_assoc, length_app. cbn. repeat split; auto. lia. }
  simpl in I.
  repeat (destruct I as [<-|I]); try (exfalso; exact I).
  - apply (Hk CList). unfold bind at 1, Question.list_recent.
    now rewrite (log_tick_down _ _ e st F).
  - apply (Hk (CFindById (params_id req))).
    unfold bind at 1, Question.findByIdAsync.
    now rewrite (log_tick_down _ _ e st F).
  - eapply Hk. unfold bind at 1, Question.create.
    now rewrite (log_tick_down _ _ e st F).
  - apply (Hk (CFindById (params_id req))).
    unfold bind at 1, Question.findByIdAsync.
    now rewrite (log_tick_down _ _ e st F).
  - apply (Hk (CFindById (params_id req))).
    unfold bind at 1, Question.findByIdAsync.
    now rewrite (log_tick_down _ _ e st F).
  - apply Hc.
  - apply Hc.
  - apply Hc.
  - apply Hc.
  - apply Hc.
  - apply Hc.
  - apply Hc.
  - apply Hc.
  - rewrite (updateAnswerComment_down req e st F).
    cbn [fst sent docs calls say advance].
    rewrite <- app_assoc, length_app. cbn. repeat split; auto. lia.
Qed.

(** On the sample data: the store is down when alice asks to delete bob's
    answer. *)
Lemma X1_store_failure_is_500_witness :
  sent (fst (destroyAnswer (request alice []) (failing_world 0 Unreachable)))
  = [RStatus 500; RSend Unreachable].
Proof.
  apply (X1_store_failure_is_500 destroyAnswer (request alice [])
           (failing_world 0 Unreachable) Unreachable).
  - simpl. tauto.
  - exists []. reflexivity.
Defined.

Section TopLevel.

Lemma remove_first_middle q before d after :
  Forall (fun x => matches q x = false) before ->
  matches q d = true ->
  remove_first (matches q) (before ++ d :: after) = before ++ after.
Proof.
  intros Hb Hd.
  induction Hb as [|x xs Hx _ IH]; simpl.
  - now rewrite Hd.
  - now rewrite Hx, IH.
Qed.

Lemma destroy_by_owner req st fs :
  store_up st ->
  find (matches (by_id (params_id req))) (docs st) = Some (VObj fs) ->
  owner_of (VObj fs) = Some (u_id (user req)) ->
  destroy req st
  = (say REnd (say (RStatus 204)
       (set_docs (remove_first (Question.has_id (Question.doc_id (VObj fs)))
                    (docs st))
          (advance (CRemove (VObj fs))
             (advance (CFindById (params_id req)) st)))),
     inr VNull).
Proof.
  intros U F O.
  unfold destroy, catch, bind.
  rewrite (findByIdAsync_up _ _ U), F. cbv beta iota.
  unfold handleEntityNotFound. cbn [truthy negb]. unfold ret.
  rewrite (handleUnauthorized_owner req (VObj fs) _ eq_refl O).
  unfold removeEntity. cbn [truthy]. unfold bind.
  rewrite removeAsync_up by now apply store_up_advance.
  reflexivity.
Qed.

Lemma handleUnauthorized_throws req e st :
  truthy e = true -> owner_of e = None ->
  handleUnauthorized req e st = (st, inl TypeError).
Proof.
  intros T O. unfold handleUnauthorized, owner_of in *.
  rewrite T; simpl.
  unfold bind, get_prop, to_string.
  destruct (prop "user" e) as [u|]; [|reflexivity]; simpl.
  destruct (prop "_id" u) as [i|]; [|reflexivity]; simpl.
  now rewrite O.
Qed.

Lemma findByIdAsync_pass id n e st :
  fails_after (S n) e st ->
  Question.findByIdAsync id st
  = (advance (CFindById id) st,
     inr (match find (matches (by_id id)) (docs st) with
          | Some d => d
          | None => VNull
          end)).
Proof.
  intros F. unfold Question.findByIdAsync.
  now rewrite (log_tick_pass _ _ n e st F).
Qed.

End TopLevel.

(** X2: show makes one find and no write; it answers status 200 with the
    first stored document that has the id, and an empty 404 (status(404),
    end()) when there is none. *)
Theorem X2_show_reads_only (st : State) (req : Request) :
  store_up st ->
  docs (fst (show req st)) = docs st /\
  calls (fst (show req st)) = calls st ++ [CFindById (params_id req)] /\
  (forall d, find (matches (by_id (params_id req))) (docs st) = Some d ->
             sent (fst (show req st)) = sent st ++ [RStatus 200; RJson d]) /\
  (find (matches (by_id (params_id req))) (docs st) = None ->
   sent (fst (show req st)) = sent st ++ not_found_status).
Proof.
  intros U.
  destruct (find (matches (by_id (params_id req))) (docs st)) as [d|] eqn:F.
  - rewrite (show_found req st d U F). cbn [fst docs calls sent say advance].
    rewrite <- app_assoc.
    repeat split; auto; [intros ? [= <-]; reflexivity|discriminate].
  - rewrite (show_missing req st U F). cbn [fst docs calls sent say advance].
    rewrite <- app_assoc.
    repeat split; auto. discriminate.
Qed.

(** On the sample data: anyone may read question q1. *)
Lemma X2_show_reads_only_witness :
  sent (fst (show (request alice []) (world FirstArrayCondition)))
  = [RStatus 200; RJson q1].
Proof.
  destruct (X2_show_reads_only (world FirstArrayCondition) (request alice []))
    as (_ & _ & H & _); [constructor|].
  exact (H q1 eq_refl).
Defined.

(** X3: the owner's delete of a question removes that document and no other,
    answers an empty 204, and a show of the same id afterwards answers the
    empty 404 (no other document having that id). *)
Theorem X3_destroy_then_show_is_404
    (st : State) (req : Request) (before after : list Value) (fs : Fields) :
  store_up st ->
  docs st = before ++ VObj fs :: after ->
  Forall (fun d => matches (by_id (params_id req)) d = false) before ->
  Forall (fun d => matches (by_id (params_id req)) d = false) after ->
  lookup "_id" fs = Some (VStr (params_id req)) ->
  owner_of (VObj fs) = Some (u_id (user req)) ->
  let st1 := fst (destroy req st) in
  docs st1 = before ++ after /\
  calls st1 = calls st ++ [CFindById (params_id req); CRemove (VObj fs)] /\
  sent st1 = sent st ++ [RStatus 204; REnd] /\
  sent (fst (show req st1)) = sent st1 ++ not_found_status /\
  docs (fst (show req st1)) = before ++ after.
Proof.
  intros U D Hb Ha Hi O st1.
  pose proof (matches_by_id_intro _ _ Hi) as Hm.
  assert (F : find (matches (by_id (params_id req))) (docs st) = Some (VObj fs)).
  { rewrite D. now apply find_after_misses. }
  assert (E : destroy req st
              = (say REnd (say (RStatus 204)
                   (set_docs (before ++ after)
                      (advance (CRemove (VObj fs))
                         (advance (CFindById (params_id req)) st)))),
                 inr VNull)).
  { rewrite (destroy_by_owner req st fs U F O). repeat f_equal.
    unfold Question.doc_id, field. rewrite Hi, D.
    now apply (remove_first_middle (by_id (params_id req))). }
  subst st1. rewrite E. cbn [fst].
  assert (U1 : store_up (say REnd (say (RStatus 204)
                   (set_docs (before ++ after)
                      (advance (CRemove (VObj fs))
                         (advance (CFindById (params_id req)) st)))))).
  { apply store_up_say, store_up_say, store_up_set_docs.
    now apply store_up_advance, store_up_advance. }
  assert (N : find (matches (by_id (params_id req))) (before ++ after) = None).
  { apply find_none_iff_no_match. apply Forall_app. auto. }
  rewrite (show_missing req _ U1 N).
  cbn [fst docs calls sent say advance set_docs].
  rewrite <- !app_assoc. repeat split; reflexivity.
Qed.

(** On the sample data: bob deletes his question q1. *)
Lemma X3_destroy_then_show_is_404_witness :
  docs (fst (destroy (request bob []) (world FirstArrayCondition))) = [] /\
  sent (fst (destroy (request bob []) (world FirstArrayCondition)))
  = [RStatus 204; REnd].
Proof.
  destruct (X3_destroy_then_show_is_404 (world FirstArrayCondition)
              (request bob []) [] [] q1_fields) as (Hd & _ & Hs & _).
  - constructor.
  - reflexivity.
  - constructor.
  - constructor.
  - reflexivity.
  - reflexivity.
  - split; [exact Hd | exact Hs].
Defined.

(** X4: when the store answers the find and fails the save (update) or the
    remove (destroy) of the owner's request with error [e], the handler
    answers status(500) with [e] and the collection is as it was. *)
Theorem X4_failed_save_or_remove_changes_nothing
    (st : State) (req : Request) (fs : Fields) (e : Value) :
  fails_after 1 e st ->
  find (matches (by_id (params_id req))) (docs st) = Some (VObj fs) ->
  owner_of (VObj fs) = Some (u_id (user req)) ->
  sent (fst (update req st)) = sent st ++ failure_calls e /\
  docs (fst (update req st)) = docs st /\
  calls (fst (update req st))
  = calls st ++ [CFindById (params_id req);
                 CSave (merge (VObj fs) (VObj (strip_id (body req))))] /\
  sent (fst (destroy req st)) = sent st ++ failure_calls e /\
  docs (fst (destroy req st)) = docs st /\
  calls (fst (destroy req st))
  = calls st ++ [CFindById (params_id req); CRemove (VObj fs)].
Proof.
  intros F1 F O.
  destruct (fails_after_advance 0 e (CFindById (params_id req)) st F1) as [F0 _].
  assert (Eu : update req st
               = (say (RSend e) (say (RStatus 500)
                    (advance (CSave (merge (VObj fs) (VObj (strip_id (body req)))))
                       (advance (CFindById (params_id req)) st))), inr VNull)).
  { unfold update, catch, bind.
    rewrite (findByIdAsync_pass _ 0 e st F1), F. cbv beta iota.
    unfold handleEntityNotFound. cbn [truthy negb]. unfold ret.
    rewrite (handleUnauthorized_owner req (VObj fs) _ eq_refl O).
    unfold saveUpdates, Question.saveAsync.
    now rewrite (log_tick_down _ _ e _ F0). }
  assert (Ed : destroy req st
               = (say (RSend e) (say (RStatus 500)
                    (advance (CRemove (VObj fs))
                       (advance (CFindById (params_id req)) st))), inr VNull)).
  { unfold destroy, catch, bind.
    rewrite (findByIdAsync_pass _ 0 e st F1), F. cbv beta iota.
    unfold handleEntityNotFound. cbn [truthy negb]. unfold ret.
    rewrite (handleUnauthorized_owner req (VObj fs) _ eq_refl O).
    unfold removeEntity. cbn [truthy]. unfold bind at 1, Question.removeAsync.
    now rewrite (log_tick_down _ _ e _ F0). }
  rewrite Eu, Ed. cbn [fst docs calls sent say advance].
  rewrite <- !app_assoc. repeat split; reflexivity.
Qed.

(** On the sample data: the store fails bob's save of a new title. *)
Lemma X4_failed_save_or_remove_changes_nothing_witness :
  sent (fst (update (request bob [("title", VStr "new")])
                    (failing_world 1 Unreachable)))
  = [RStatus 500; RSend Unreachable] /\
  docs (fst (update (request bob [("title", VStr "new")])
                    (failing_world 1 Unreachable))) = [q1].
Proof.
  destruct (X4_failed_save_or_remove_changes_nothing
              (failing_world 1 Unreachable)
              (request bob [("title", VStr "new")]) q1_fields Unreachable)
    as (Hs & Hd & _).
  - exists []. reflexivity.
  - reflexivity.
  - reflexivity.
  - split; [exact Hs | exact Hd].
Defined.

(** X5: when the stored question has no user, or a user without an [_id],
    the ownership check of update and destroy throws; the handler answers
    status(500) with the TypeError and issues no save and no remove. *)
Theorem X5_ownerless_question_is_500
    (st : State) (req : Request) (q : Value) :
  store_up st ->
  find (matches (by_id (params_id req))) (docs st) = Some q ->
  owner_of q = None ->
  sent (fst (update req st)) = sent st ++ failure_calls TypeError /\
  sent (fst (destroy req st)) = sent st ++ failure_calls TypeError /\
  docs (fst (update req st)) = docs st /\
  docs (fst (destroy req st)) = docs st /\
  calls (fst (update req st)) = calls st ++ [CFindById (params_id req)] /\
  calls (fst (destroy req st)) = calls st ++ [CFindById (params_id req)].
Proof.
  intros U F O.
  pose proof (found_truthy _ _ _ F) as T.
  assert (Eu : update req st
               = (say (RSend TypeError) (say (RStatus 500)
                    (advance (CFindById (params_id req)) st)), inr VNull)).
  { unfold update, catch, bind.
    rewrite (findByIdAsync_up _ _ U), F. cbv beta iota.
    unfold handleEntityNotFound. rewrite T. cbn [negb]. unfold ret.
    now rewrite (handleUnauthorized_throws req q _ T O). }
  assert (Ed : destroy req st
               = (say (RSend TypeError) (say (RStatus 500)
                    (advance (CFindById (params_id req)) st)), inr VNull)).
  { unfold destroy, catch, bind.
    rewrite (findByIdAsync_up _ _ U), F. cbv beta iota.
    unfold handleEntityNotFound. rewrite T. cbn [negb]. unfold ret.
    now rewrite (handleUnauthorized_throws req q _ T O). }
  rewrite Eu, Ed. cbn [fst docs calls sent say advance].
  rewrite <- !app_assoc. repeat split; reflexivity.
Qed.

(** On the sample data: bob asks to delete the question that has no user. *)
Lemma X5_ownerless_question_is_500_witness :
  sent (fst (destroy (request_on "q9" bob []) orphanage))
  = [RStatus 500; RSend TypeError] /\
  docs (fst (destroy (request_on "q9" bob []) orphanage)) = [q1; orphan].
Proof.
  destruct (X5_ownerless_question_is_500 orphanage (request_on "q9" bob []) orphan)
    as (_ & Hs & _ & Hd & _).
  - constructor.
  - reflexivity.
  - reflexivity.
  - split; [exact Hs | exact Hd].
Defined.

Section Push.

Lemma field_modifier_applies pos m arr fs y :
  modifier_path m = [Key arr] ->
  modifier_action m (lookup arr fs) = Some (Some y) ->
  apply_modifiers pos [m] (VObj fs) = Some (VObj (obj_set arr y fs)).
Proof.
  intros Hp Ha. unfold apply_modifiers, apply_modifier.
  rewrite Hp. cbn [alter]. now rewrite Ha.
Qed.

Lemma field_conditional_run req arr m st before fs after y :
  arr <> "_id" ->
  store_up st ->
  docs st = before ++ VObj fs :: after ->
  Forall (fun d => matches (by_id (params_id req)) d = false) before ->
  lookup "_id" fs = Some (VStr (params_id req)) ->
  modifier_path m = [Key arr] ->
  modifier_action m (lookup arr fs) = Some (Some y) ->
  let q' := VObj (obj_set arr y fs) in
  conditional req (by_id (params_id req)) [m] st
  = (say (RJson q') (say (RStatus 200)
       (advance (CFindById (params_id req))
          (set_docs (before ++ q' :: after)
             (advance (CUpdate (by_id (params_id req)) [m]) st)))),
     inr VNull).
Proof.
  intros Na U D Hb Hi Hp Ha q'.
  assert (Hq' : matches (by_id (params_id req)) q' = true).
  { apply matches_by_id_intro.
    rewrite lookup_obj_set_other; [assumption|congruence]. }
  eapply conditional_hit; eauto.
  - now apply matches_by_id_intro.
  - now apply field_modifier_applies.
  - now apply find_after_misses.
Qed.

Lemma element_modifier_applies m arr k fs pre efs post y :
  modifier_path m = [Key arr; Pos; Key k] ->
  lookup arr fs = Some (VArr (pre ++ VObj efs :: post)) ->
  modifier_action m (lookup k efs) = Some (Some y) ->
  apply_modifiers (Some (List.length pre)) [m] (VObj fs)
  = Some (VObj (obj_set arr
                  (VArr (pre ++ VObj (obj_set k y efs) :: post)) fs)).
Proof.
  intros Hp La Ha. unfold apply_modifiers, apply_modifier.
  rewrite Hp. cbn [alter]. rewrite La. cbn [option_map].
  rewrite nth_error_middle. cbv beta iota zeta. cbn [alter]. rewrite Ha.
  cbn [option_map]. now rewrite set_nth_middle.
Qed.

Lemma element_conditional_run req arr eid k m st before fs after pre efs post y :
  arr <> "_id" ->
  store_up st ->
  docs st = before ++ VObj fs :: after ->
  Forall (fun d => matches (by_id (params_id req)) d = false) before ->
  lookup "_id" fs = Some (VStr (params_id req)) ->
  lookup arr fs = Some (VArr (pre ++ VObj efs :: post)) ->
  Forall (fun a => element_has_id eid a = false) pre ->
  lookup "_id" efs = Some (VStr eid) ->
  modifier_path m = [Key arr; Pos; Key k] ->
  modifier_action m (lookup k efs) = Some (Some y) ->
  let q' := VObj (obj_set arr
                    (VArr (pre ++ VObj (obj_set k y efs) :: post)) fs) in
  conditional req (element_query req arr eid) [m] st
  = (say (RJson q') (say (RStatus 200)
       (advance (CFindById (params_id req))
          (set_docs (before ++ q' :: after)
             (advance (CUpdate (element_query req arr eid) [m]) st)))),
     inr VNull).
Proof.
  intros Na U D Hb Hi La Hp He Hm Ha q'.
  destruct (element_query_matches req arr eid fs pre efs post Hi La Hp He)
    as [Hq Hpos].
  eapply conditional_hit; eauto.
  - eapply Forall_impl; [|exact Hb].
    intros d Hd. unfold matches, element_query. cbn [forallb].
    unfold matches, by_id in Hd. cbn [forallb] in Hd.
    rewrite andb_true_r in Hd. now rewrite Hd.
  - rewrite Hpos. now apply element_modifier_applies.
  - apply find_after_misses; auto.
    apply matches_by_id_intro.
    rewrite lookup_obj_set_other; [assumption|congruence].
Qed.

Lemma createAnswer_conditional req :
  createAnswer req
  = conditional (with_body req (obj_set "user" (user_doc (user req)) (body req)))
      (by_id (params_id req))
      [MPush [Key "answers"]
             (VObj (obj_set "user" (user_doc (user req)) (body req)))].
Proof. reflexivity. Qed.

Lemma createComment_conditional req :
  createComment req
  = conditional (with_body req (obj_set "user" (uid req) (body req)))
      (by_id (params_id req))
      [MPush [Key "comments"] (VObj (obj_set "user" (uid req) (body req)))].
Proof. reflexivity. Qed.

Lemma createAnswerComment_conditional req :
  createAnswerComment req
  = conditional (with_body req (obj_set "user" (uid req) (body req)))
      (element_query req "answers" (params_answerId req))
      [MPush [Key "answers"; Pos; Key "comments"]
             (VObj (obj_set "user" (uid req) (body req)))].
Proof. reflexivity. Qed.

End Push.

(** X6: on the first stored question with the given id, createAnswer appends
    the request body, with its user set to the acting user whatever user the
    body carried, at the end of the answer list, and createComment does the
    same on the comment list with the acting user's id; a list that is
    missing is created with that one element.  Every other field and
    document is kept, and the question is re-fetched and returned with
    status 200. *)
Theorem X6_create_answer_or_comment_appends
    (st : State) (req : Request) (before after : list Value) (fs : Fields) :
  store_up st ->
  docs st = before ++ VObj fs :: after ->
  Forall (fun d => matches (by_id (params_id req)) d = false) before ->
  lookup "_id" fs = Some (VStr (params_id req)) ->
  let a := VObj (obj_set "user" (user_doc (user req)) (body req)) in
  let c := VObj (obj_set "user" (VStr (u_id (user req))) (body req)) in
  (forall old,
     lookup "answers" fs = Some (VArr old) \/ (lookup "answers" fs = None /\ old = []) ->
     let q' := VObj (obj_set "answers" (VArr (old ++ [a])) fs) in
     docs (fst (createAnswer req st)) = before ++ q' :: after /\
     sent (fst (createAnswer req st)) = sent st ++ [RStatus 200; RJson q']) /\
  (forall old,
     lookup "comments" fs = Some (VArr old) \/ (lookup "comments" fs = None /\ old = []) ->
     let q' := VObj (obj_set "comments" (VArr (old ++ [c])) fs) in
     docs (fst (createComment req st)) = before ++ q' :: after /\
     sent (fst (createComment req st)) = sent st ++ [RStatus 200; RJson q']) /\
  prop "user" a = Some (user_doc (user req)) /\
  prop "user" c = Some (VStr (u_id (user req))).
Proof.
  intros U D Hb Hi a c. subst a c.
  split; [|split; [|split]].
  - intros old H q'.
    rewrite createAnswer_conditional.
    pose proof (field_conditional_run
               (with_body req (obj_set "user" (user_doc (user req)) (body req)))
               "answers"
               (MPush [Key "answers"]
                  (VObj (obj_set "user" (user_doc (user req)) (body req))))
               st before fs after
               (VArr (old ++ [VObj (obj_set "user" (user_doc (user req)) (body req))]))
               ltac:(discriminate) U D Hb Hi eq_refl) as R.
    cbn [params_id with_body] in R. rewrite R.
    + cbn [fst sent docs say advance set_docs]. now rewrite <- !app_assoc.
    + destruct H as [->|[-> ->]]; reflexivity.
  - intros old H q'.
    rewrite createComment_conditional.
    pose proof (field_conditional_run
               (with_body req (obj_set "user" (uid req) (body req)))
               "comments"
               (MPush [Key "comments"] (VObj (obj_set "user" (uid req) (body req))))
               st before fs after
               (VArr (old ++ [VObj (obj_set "user" (uid req) (body req))]))
               ltac:(discriminate) U D Hb Hi eq_refl) as R.
    cbn [params_id with_body] in R. rewrite R.
    + cbn [fst sent docs say advance set_docs]. now rewrite <- !app_assoc.
    + destruct H as [->|[-> ->]]; reflexivity.
  - cbn [prop]. now rewrite field_obj_set_same.
  - cbn [prop]. now rewrite field_obj_set_same.
Qed.

(** On the sample data: alice answers bob's question under bob's name. *)
Lemma X6_create_answer_or_comment_appends_witness :
  docs (fst (createAnswer (request alice [("content", VStr "mine");
                                          ("user", VStr "bob")])
                          (world FirstArrayCondition)))
  = [VObj (obj_set "answers"
             (VArr [a1; VObj [("content", VStr "mine"); ("user", user_doc alice)]])
             q1_fields)].
Proof.
  destruct (X6_create_answer_or_comment_appends (world FirstArrayCondition)
              (request alice [("content", VStr "mine"); ("user", VStr "bob")])
              [] [] q1_fields) as (Ha & _).
  - constructor.
  - reflexivity.
  - constructor.
  - reflexivity.
  - destruct (Ha [a1]) as (Hd & _).
    + left. reflexivity.
    + exact Hd.
Defined.

(** X7: createAnswerComment appends the request body, with its user set to
    the acting user's id, to the comment list of the first answer that has
    the given answer id (creating the list when the answer has none); every
    other answer, field and document is kept, and the question is re-fetched
    and returned with status 200. *)
Theorem X7_create_answer_comment_appends
    (st : State) (req : Request) (before after : list Value) (fs : Fields)
    (pre post : list Value) (efs : Fields) (old : list Value) :
  store_up st ->
  docs st = before ++ VObj fs :: after ->
  Forall (fun d => matches (by_id (params_id req)) d = false) before ->
  lookup "_id" fs = Some (VStr (params_id req)) ->
  lookup "answers" fs = Some (VArr (pre ++ VObj efs :: post)) ->
  Forall (fun a => element_has_id (params_answerId req) a = false) pre ->
  lookup "_id" efs = Some (VStr (params_answerId req)) ->
  lookup "comments" efs = Some (VArr old)
  \/ (lookup "comments" efs = None /\ old = []) ->
  let c := VObj (obj_set "user" (VStr (u_id (user req))) (body req)) in
  let a' := VObj (obj_set "comments" (VArr (old ++ [c])) efs) in
  let q' := VObj (obj_set "answers" (VArr (pre ++ a' :: post)) fs) in
  docs (fst (createAnswerComment req st)) = before ++ q' :: after /\
  sent (fst (createAnswerComment req st)) = sent st ++ [RStatus 200; RJson q'].
Proof.
  intros U D Hb Hi La Hp He Hc c a' q'. subst c.
  rewrite createAnswerComment_conditional.
  pose proof (element_conditional_run
             (with_body req (obj_set "user" (uid req) (body req)))
             "answers" (params_answerId req) "comments"
             (MPush [Key "answers"; Pos; Key "comments"]
                (VObj (obj_set "user" (uid req) (body req))))
             st before fs after pre efs post
             (VArr (old ++ [VObj (obj_set "user" (uid req) (body req))]))
             ltac:(discriminate) U D Hb Hi La Hp He eq_refl) as R.
  cbn [params_id with_body] in R.
  change (element_query
            (with_body req (obj_set "user" (uid req) (body req)))
            "answers" (params_answerId req))
    with (element_query req "answers" (params_answerId req)) in R.
  rewrite R.
  - cbn [fst sent docs say advance set_docs]. now rewrite <- !app_assoc.
  - destruct Hc as [->|[-> ->]]; reflexivity.
Qed.

(** On the sample data: alice comments on bob's answer a1. *)
Lemma X7_create_answer_comment_appends_witness :
  docs (fst (createAnswerComment (request alice [("content", VStr "third")])
                                 (world LastArrayCondition)))
  = [q1_with [c1; c2; VObj [("content", VStr "third"); ("user", VStr "alice")]]].
Proof.
  refine (proj1 (X7_create_answer_comment_appends (world LastArrayCondition)
              (request alice [("content", VStr "third")])
              [] [] q1_fields [] []
              [("_id", VStr "a1"); ("user", VStr "bob");
               ("content", VStr "answer"); ("comments", VArr [c1; c2])]
              [c1; c2] _ eq_refl _ eq_refl eq_refl _ eq_refl _)).
  - constructor.
  - constructor.
  - constructor.
  - left. reflexivity.
Defined.

(** X8: destroyAnswerComment removes, from the comment list of the first
    answer that has the given answer id, exactly the comments that have both
    the given comment id and the acting user as their user; every other
    comment, answer, field and document is kept, and the question is
    re-fetched and returned with status 200, also when no comment was
    removed. *)
Theorem X8_destroy_answer_comment_pulls_own
    (st : State) (req : Request) (before after : list Value) (fs : Fields)
    (pre post : list Value) (efs : Fields) (cs : list Value) :
  store_up st ->
  docs st = before ++ VObj fs :: after ->
  Forall (fun d => matches (by_id (params_id req)) d = false) before ->
  lookup "_id" fs = Some (VStr (params_id req)) ->
  lookup "answers" fs = Some (VArr (pre ++ VObj efs :: post)) ->
  Forall (fun a => element_has_id (params_answerId req) a = false) pre ->
  lookup "_id" efs = Some (VStr (params_answerId req)) ->
  lookup "comments" efs = Some (VArr cs) ->
  let kept :=
    filter (fun e => negb (matches (owned_by (params_commentId req) req) e)) cs in
  let a' := VObj (obj_set "comments" (VArr kept) efs) in
  let q' := VObj (obj_set "answers" (VArr (pre ++ a' :: post)) fs) in
  docs (fst (destroyAnswerComment req st)) = before ++ q' :: after /\
  sent (fst (destroyAnswerComment req st)) = sent st ++ [RStatus 200; RJson q'] /\
  (Forall (fun e => matches (owned_by (params_commentId req) req) e = false) cs ->
   q' = VObj fs).
Proof.
  intros U D Hb Hi La Hp He Hc kept a' q'.
  rewrite destroyAnswerComment_conditional.
  pose proof (element_conditional_run req "answers" (params_answerId req) "comments"
             (MPull [Key "answers"; Pos; Key "comments"]
                    (owned_by (params_commentId req) req))
             st before fs after pre efs post (VArr kept)
             ltac:(discriminate) U D Hb Hi La Hp He eq_refl) as R.
  unfold element_query in R. rewrite R.
  - cbn [fst sent docs say advance set_docs]. rewrite <- !app_assoc.
    repeat split.
    intros Hn. subst q' a' kept.
    rewrite filter_all.
    + rewrite (obj_set_same _ _ _ Hc). now rewrite obj_set_same.
    + eapply Forall_impl; [|exact Hn]. intros e He'. cbv beta in *.
      now rewrite He'.
  - cbn [modifier_action]. now rewrite Hc.
Qed.

(** On the sample data: bob deletes his comment c1 under answer a1. *)
Lemma X8_destroy_answer_comment_pulls_own_witness :
  docs (fst (destroyAnswerComment (request bob []) (world FirstArrayCondition)))
  = [q1_with [c2]].
Proof.
  refine (proj1 (X8_destroy_answer_comment_pulls_own (world FirstArrayCondition)
              (request bob [])
              [] [] q1_fields [] []
              [("_id", VStr "a1"); ("user", VStr "bob");
               ("content", VStr "answer"); ("comments", VArr [c1; c2])]
              [c1; c2] _ eq_refl _ eq_refl eq_refl _ eq_refl eq_refl)).
  - constructor.
  - constructor.
  - constructor.
Defined.

Section RoundTrips.

Lemma create_up body st :
  store_up st ->
  Question.create body st
  = let doc :=
      match field "_id" body with
      | VNull =>
          VObj (("_id", VStr ("q" ++ string_of_nat (next_id st))%string)
                  :: obj_del "_id" body)
      | _ => VObj body
      end in
    if existsb (Question.has_id (Question.doc_id doc)) (docs st)
    then (advance (CCreate (VObj body)) st, inl DuplicateKey)
    else ({| docs := docs st ++ [doc]; faults := tl (faults st);
             next_id := S (next_id st); rule := rule st;
             calls := calls st ++ [CCreate (VObj body)]; sent := sent st |},
          inr doc).
Proof.
  intros U. unfold Question.create.
  rewrite (log_tick_up _ _ _ U). reflexivity.
Qed.

Lemma existsb_false_Forall {A} (p : A -> bool) l :
  existsb p l = false -> Forall (fun x => p x = false) l.
Proof.
  induction l as [|x r IH]; simpl; intros E; constructor.
  - now apply orb_false_elim in E.
  - apply IH. now apply orb_false_elim in E.
Qed.

Lemma create_success body st st1 doc :
  store_up st ->
  Question.create body st = (st1, inr doc) ->
  Forall (fun d => Question.has_id (Question.doc_id doc) d = false) (docs st) /\
  docs st1 = docs st ++ [doc] /\
  sent st1 = sent st /\
  store_up st1.
Proof.
  intros U C. rewrite (create_up _ _ U) in C. cbv zeta in C.
  remember (match field "_id" body with
            | VNull => _
            | _ => VObj body
            end) as d eqn:Hd in C.
  destruct (existsb (Question.has_id (Question.doc_id d)) (docs st)) eqn:E;
    [discriminate|].
  injection C as <- <-. cbn [docs sent].
  repeat split; auto using existsb_false_Forall.
  unfold store_up in *. cbn [faults].
  destruct (faults st); cbn [tl]; auto. now inversion U.
Qed.

Lemma doc_id_lookup d id :
  Question.doc_id d = VStr id ->
  exists fs, d = VObj fs /\ lookup "_id" fs = Some (VStr id).
Proof.
  intros H. destruct d as [| b | n | s | l | fs]; try discriminate H.
  unfold Question.doc_id, field in H.
  destruct (lookup "_id" fs) as [x|] eqn:L; [|discriminate H].
  subst x. eauto.
Qed.

Lemma show_down req e st :
  fails_after 0 e st ->
  show req st
  = (say (RSend e) (say (RStatus 500) (advance (CFindById (params_id req)) st)),
     inr VNull).
Proof.
  intros F. unfold show, catch, bind at 1, Question.findByIdAsync.
  now rewrite (log_tick_down _ _ e st F).
Qed.

Lemma conditional_refetch_fails req q ms e st ds n :
  fails_after 1 e st ->
  update_first (rule st) q ms (docs st) = Some (ds, S n) ->
  conditional req q ms st
  = (say (RSend e) (say (RStatus 500)
       (advance (CFindById (params_id req))
          (set_docs ds (advance (CUpdate q ms) st)))), inr VNull).
Proof.
  intros F H. unfold conditional, bind at 1, attempt, Question.update.
  rewrite (log_tick_pass _ _ 0 e st F).
  cbn [rule docs advance]. rewrite H.
  unfold after_update. cbn [Nat.eqb].
  apply show_down.
  destruct F as (r & F). exists r.
  cbn [faults set_docs advance]. now rewrite F.
Qed.

Lemma nested_update_refetch_fails h q ms req st e ds n :
  In (h, q, ms) nested_updates ->
  fails_after 1 e st ->
  update_first (rule st) (q req) (ms req) (docs st) = Some (ds, S n) ->
  h req st
  = (say (RSend e) (say (RStatus 500)
       (advance (CFindById (params_id req))
          (set_docs ds (advance (CUpdate (q req) (ms req)) st)))), inr VNull).
Proof.
  intros I F H. simpl in I.
  repeat (destruct I as [I|I]; [injection I as <- <- <-|]);
    try (exfalso; exact I).
  - rewrite createAnswer_conditional.
    exact (conditional_refetch_fails _ _ _ e st ds n F H).
  - rewrite updateAnswer_conditional.
    exact (conditional_refetch_fails _ _ _ e st ds n F H).
  - rewrite destroyAnswer_conditional.
    exact (conditional_refetch_fails _ _ _ e st ds n F H).
  - rewrite createComment_conditional.
    exact (conditional_refetch_fails _ _ _ e st ds n F H).
  - rewrite destroyComment_conditional.
    exact (conditional_refetch_fails _ _ _ e st ds n F H).
  - rewrite updateComment_conditional.
    exact (conditional_refetch_fails _ _ _ e st ds n F H).
  - rewrite createAnswerComment_conditional.
    exact (conditional_refetch_fails _ _ _ e st ds n F H).
  - rewrite destroyAnswerComment_conditional.
    exact (conditional_refetch_fails _ _ _ e st ds n F H).
Qed.

End RoundTrips.

(** X9: a question that create has stored is what show then answers for its
    identifier: status 200 with the created document. *)
Theorem X9_create_then_show
    (st st1 : State) (req req' : Request) (doc : Value) :
  store_up st ->
  Question.create (obj_set "user" (user_doc (user req)) (body req)) st
  = (st1, inr doc) ->
  Question.doc_id doc = VStr (params_id req') ->
  let st' := fst (create req st) in
  sent (fst (show req' st')) = sent st' ++ [RStatus 200; RJson doc] /\
  docs (fst (show req' st')) = docs st ++ [doc].
Proof.
  intros U C Hid st'.
  pose proof (created_truthy _ _ _ _ C) as T.
  assert (Hrun : create req st
                 = (say (RJson doc) (say (RStatus 201) st1), inr VNull)).
  { unfold create, catch, bind. rewrite C. cbv beta iota.
    unfold respondWithResult. now rewrite T. }
  destruct (create_success _ _ _ _ U C) as (E & Hdocs & _ & U1).
  destruct (doc_id_lookup _ _ Hid) as (fs & Hfs & Hl).
  subst st'. rewrite Hrun. cbn [fst].
  rewrite Hid in E.
  erewrite show_found.
  - cbn [fst sent docs say advance]. rewrite <- !app_assoc, Hdocs.
    split; reflexivity.
  - now apply store_up_say, store_up_say.
  - cbn [docs say]. rewrite Hdocs, Hfs.
    apply find_after_misses; [exact E|].
    now apply matches_by_id_intro.
Qed.

(** On the sample data: alice creates the first question of the store's own
    numbering and reads it back. *)
Lemma X9_create_then_show_witness :
  exists doc,
    Question.doc_id doc = VStr "q0" /\
    sent (fst (show (request_on "q0" bob [])
                 (fst (create (request alice [("title", VStr "mine")])
                              (world FirstArrayCondition)))))
    = [RStatus 201; RJson doc; RStatus 200; RJson doc].
Proof.
  eexists. split; [|
  refine (proj1 (X9_create_then_show (world FirstArrayCondition) _
                   (request alice [("title", VStr "mine")])
                   (request_on "q0" bob []) _ _ eq_refl eq_refl))].
  - reflexivity.
  - constructor.
Defined.

(** X10: when a nested handler's conditional update has matched and the find
    of the re-fetch then fails with [e], the handler answers status(500) with
    [e] although the update has been applied to the collection. *)
Theorem X10_refetch_failure_after_applied_update
    (h : Request -> M Value) (q : Request -> Query)
    (ms : Request -> list Modifier)
    (req : Request) (st : State) (e : Value) (ds : list Value) (n : nat) :
  In (h, q, ms) nested_updates ->
  fails_after 1 e st ->
  update_first (rule st) (q req) (ms req) (docs st) = Some (ds, S n) ->
  docs (fst (h req st)) = ds /\
  sent (fst (h req st)) = sent st ++ failure_calls e /\
  calls (fst (h req st))
  = calls st ++ [CUpdate (q req) (ms req); CFindById (params_id req)].
Proof.
  intros I F Hu.
  rewrite (nested_update_refetch_fails h q ms req st e ds n I F Hu).
  cbn [fst docs sent calls say advance set_docs].
  rewrite <- !app_assoc. repeat split; reflexivity.
Qed.

(** On the sample data: bob's delete of his answer is applied, the re-fetch
    fails. *)
Lemma X10_refetch_failure_after_applied_update_witness :
  docs (fst (destroyAnswer (request bob []) (failing_world 1 Unreachable)))
  = [VObj (obj_set "answers" (VArr []) q1_fields)] /\
  sent (fst (destroyAnswer (request bob []) (failing_world 1 Unreachable)))
  = [RStatus 500; RSend Unreachable].
Proof.
  destruct (X10_refetch_failure_after_applied_update destroyAnswer
              (fun req => [([Key "_id"], VStr (params_id req))])
              (fun req => [MPull [Key "answers"]
                             [([Key "_id"], VStr (params_answerId req));
                              ([Key "user"], uid req)]])
              (request bob []) (failing_world 1 Unreachable) Unreachable
              [VObj (obj_set "answers" (VArr []) q1_fields)] 0)
    as (Hd & Hs & _).
  - simpl. tauto.
  - exists []. reflexivity.
  - reflexivity.
  - split; [exact Hd | exact Hs].
Defined.

Section CommentUnderAnswer.

Lemma array_field_hits k v cs i0 :
  map fst
    (filter (fun ox : option nat * Value => value_eqb (snd ox) v)
       (flat_map
          (fun ix : nat * Value =>
             match snd ix with
             | VObj fs =>
                 match lookup k fs with
                 | Some x => map (fun ox : option nat * Value =>
                                    (Some (fst ix), snd ox)) (reach [] x)
                 | None => []
                 end
             | _ => []
             end)
          (indexed i0 cs)))
  = map (fun ix : nat * Value => Some (fst ix))
        (filter (fun ix => element_field_is k v (snd ix)) (indexed i0 cs)).
Proof.
  revert i0.
  induction cs as [|x r IH]; intros i0; cbn [indexed flat_map filter map]; auto.
  rewrite filter_app, map_app, IH. cbn [fst snd].
  destruct x as [| b | n | s | l | efs]; cbn [element_field_is app filter map]; auto.
  destruct (lookup k efs) as [y|]; cbn [reach map app filter fst snd]; auto.
  destruct (value_eqb y v); reflexivity.
Qed.

Lemma hits_in_comments k v fs items i efs cs :
  lookup "answers" fs = Some (VArr items) ->
  nth_error items i = Some (VObj efs) ->
  lookup "comments" efs = Some (VArr cs) ->
  hits ([Key "answers"; Idx i; Key "comments"; Key k], v) (VObj fs)
  = map (fun ix => Some (fst ix))
        (filter (fun ix => element_field_is k v (snd ix)) (indexed 0 cs)).
Proof.
  intros La Hn Lc. unfold hits. cbn [fst snd reach].
  rewrite La, Hn, Lc. apply array_field_hits.
Qed.

Lemma indexed_no_field k v items i :
  Forall (fun a => element_field_is k v a = false) items ->
  filter (fun ix : nat * Value => element_field_is k v (snd ix)) (indexed i items)
  = [].
Proof.
  intros F. revert i.
  induction F as [|x r Hx _ IH]; intros i; cbn [indexed filter]; auto.
  cbn [snd]. now rewrite Hx.
Qed.

Lemma indexed_first_field k v pre x post i :
  Forall (fun a => element_field_is k v a = false) pre ->
  element_field_is k v x = true ->
  hd None (map (fun ix : nat * Value => Some (fst ix))
             (filter (fun ix => element_field_is k v (snd ix))
                (indexed i (pre ++ x :: post))))
  = Some (i + List.length pre)%nat.
Proof.
  intros F Hx. revert i.
  induction F as [|a r Ha _ IH]; intros i; cbn [app indexed filter snd].
  - rewrite Hx. cbn. f_equal. lia.
  - rewrite Ha, IH. cbn. f_equal. lia.
Qed.

Lemma unique_question req (ds : list Value) q :
  filter (matches (by_id (params_id req))) ds = [q] ->
  forall d, In d ds -> matches (by_id (params_id req)) d = true -> d = q.
Proof.
  intros Hf d Hd Hm.
  assert (Hq : In d [q]) by (rewrite <- Hf; apply filter_In; auto).
  destruct Hq as [<-|[]]. reflexivity.
Qed.

Lemma comment_conditions_miss req st fs pre efs post cs :
  filter (matches (by_id (params_id req))) (docs st) = [VObj fs] ->
  lookup "answers" fs = Some (VArr (pre ++ VObj efs :: post)) ->
  lookup "comments" efs = Some (VArr cs) ->
  Forall (fun c => element_field_is "_id" (VStr (params_commentId req)) c = false) cs
  \/ Forall (fun c => element_field_is "user" (uid req) c = false) cs ->
  no_match (comment_conditions req (List.length pre)) st.
Proof.
  intros Hf La Lc H. unfold no_match.
  apply Forall_forall. intros d Hd.
  unfold matches, comment_conditions. cbn [forallb].
  destruct (holds ([Key "_id"], VStr (params_id req)) d) eqn:E; auto.
  assert (Hm : matches (by_id (params_id req)) d = true).
  { unfold matches, by_id. cbn [forallb]. now rewrite E. }
  rewrite (unique_question req _ _ Hf d Hd Hm).
  unfold holds.
  rewrite !(hits_in_comments _ _ fs _ _ efs cs La (nth_error_middle _ _ _) Lc).
  destruct H as [H|H]; rewrite (indexed_no_field _ _ _ _ H); cbn.
  - reflexivity.
  - now destruct (map _ _).
Qed.

Lemma scan_single_hit req pre a post i st ds :
  store_up st ->
  Forall (fun a => exists s, id_string a = Some s /\ s <> params_answerId req) pre ->
  id_string a = Some (params_answerId req) ->
  Forall (fun a => exists s, id_string a = Some s /\ s <> params_answerId req) post ->
  update_first (rule st) (comment_conditions req (i + List.length pre))
    (comment_doc req (i + List.length pre)) (docs st) = Some (ds, 1%nat) ->
  scan req i (pre ++ a :: post) st
  = (set_docs ds
       (advance (CUpdate (comment_conditions req (i + List.length pre))
                         (comment_doc req (i + List.length pre))) st),
     inr (true, [inr 1%nat])).
Proof.
  intros U Fp Ha Fq. revert i.
  induction Fp as [|b r (s & Hs & Hn) _ IH]; intros i N; cbn [app scan List.length].
  - rewrite Nat.add_0_r in *.
    unfold bind at 1. unfold bind at 1.
    unfold id_string in Ha. unfold get_prop, to_string.
    destruct (prop "_id" a) as [x|]; [|discriminate].
    unfold ret at 1. cbv beta iota. rewrite Ha.
    unfold ret at 1. cbv beta iota.
    rewrite String.eqb_refl.
    unfold bind, attempt.
    rewrite (update_up _ _ _ U), N.
    rewrite (scan_no_answer req post (S i) _ Fq).
    reflexivity.
  - unfold bind at 1. unfold bind at 1.
    unfold id_string in Hs. unfold get_prop, to_string.
    destruct (prop "_id" b) as [x|]; [|discriminate].
    unfold ret at 1. cbv beta iota. rewrite Hs.
    unfold ret at 1. cbv beta iota.
    apply String.eqb_neq in Hn. rewrite Hn.
    rewrite (IH (S i)).
    + now rewrite Nat.add_succ_r.
    + now rewrite Nat.add_succ_l, <- Nat.add_succ_r.
Qed.

Lemma object_id_string efs s :
  lookup "_id" efs = Some (VStr s) -> id_string (VObj efs) = Some s.
Proof. intros L. unfold id_string, prop, field. now rewrite L. Qed.

Lemma filter_unique_question req before fs after :
  Forall (fun d => matches (by_id (params_id req)) d = false) before ->
  Forall (fun d => matches (by_id (params_id req)) d = false) after ->
  lookup "_id" fs = Some (VStr (params_id req)) ->
  filter (matches (by_id (params_id req))) (before ++ VObj fs :: after)
  = [VObj fs].
Proof.
  intros Hb Ha Hi.
  rewrite filter_app. cbn [filter].
  rewrite (matches_by_id_intro _ _ Hi).
  assert (Z : forall l, Forall (fun d => matches (by_id (params_id req)) d = false) l ->
                        filter (matches (by_id (params_id req))) l = []).
  { induction 1 as [|x r Hx _ IH]; cbn [filter]; auto. now rewrite Hx. }
  now rewrite (Z _ Hb), (Z _ Ha).
Qed.

End CommentUnderAnswer.

(** X11: when the answer with the given id has no comment with the given
    comment id, or no comment whose user is the acting user, the update of a
    comment under an answer issues its conditional update, which matches
    nothing: the collection is as it was and the answer is send(404). *)
Theorem X11_update_answer_comment_without_match
    (st : State) (req : Request) (fs : Fields)
    (pre post : list Value) (efs : Fields) (cs : list Value) :
  store_up st ->
  filter (matches (by_id (params_id req))) (docs st) = [VObj fs] ->
  lookup "answers" fs = Some (VArr (pre ++ VObj efs :: post)) ->
  Forall (fun a => exists s, id_string a = Some s /\ s <> params_answerId req) pre ->
  lookup "_id" efs = Some (VStr (params_answerId req)) ->
  Forall (fun a => exists s, id_string a = Some s /\ s <> params_answerId req) post ->
  lookup "comments" efs = Some (VArr cs) ->
  Forall (fun c => element_field_is "_id" (VStr (params_commentId req)) c = false) cs
  \/ Forall (fun c => element_field_is "user" (VStr (u_id (user req))) c = false) cs ->
  let st' := fst (updateAnswerComment req st) in
  docs st' = docs st /\
  sent st' = sent st ++ not_found_sent /\
  calls st'
  = calls st ++ [CFind (by_id (params_id req));
                 CUpdate (comment_conditions req (List.length pre))
                         (comment_doc req (List.length pre))].
Proof.
  intros U Hf La Fp He Fq Lc H st'. subst st'.
  pose proof (comment_conditions_miss req st fs pre efs post cs Hf La Lc H) as N.
  assert (Hp : prop "answers" (VObj fs) = Some (VArr (pre ++ VObj efs :: post))).
  { cbn [prop]. unfold field. now rewrite La. }
  rewrite (updateAnswerComment_no_comment req st (VObj fs) pre (VObj efs) post
             U Hf Hp Fp (object_id_string _ _ He) Fq N).
  cbn [fst docs sent calls say advance].
  rewrite <- !app_assoc. repeat split; reflexivity.
Qed.

(** On the sample data: alice asks to update a comment that answer a1 does
    not have. *)
Lemma X11_update_answer_comment_without_match_witness :
  sent (fst (updateAnswerComment
               (mkRequest "q1" "a1" "c7" [("content", VStr "new")] alice)
               (world LastArrayCondition)))
  = not_found_sent.
Proof.
  refine (proj1 (proj2 (X11_update_answer_comment_without_match
            (world LastArrayCondition)
            (mkRequest "q1" "a1" "c7" [("content", VStr "new")] alice)
            q1_fields [] []
            [("_id", VStr "a1"); ("user", VStr "bob");
             ("content", VStr "answer"); ("comments", VArr [c1; c2])]
            [c1; c2] _ eq_refl eq_refl _ eq_refl _ eq_refl _))).
  - constructor.
  - constructor.
  - constructor.
  - left. repeat constructor.
Defined.

Section OwnComment.

Lemma comment_conditions_hit req fs pre efs post cpre cfs cpost :
  lookup "_id" fs = Some (VStr (params_id req)) ->
  lookup "answers" fs = Some (VArr (pre ++ VObj efs :: post)) ->
  lookup "comments" efs = Some (VArr (cpre ++ VObj cfs :: cpost)) ->
  Forall (fun c => element_field_is "_id" (VStr (params_commentId req)) c = false)
         cpre ->
  Forall (fun c => element_field_is "user" (uid req) c = false) cpre ->
  lookup "_id" cfs = Some (VStr (params_commentId req)) ->
  lookup "user" cfs = Some (uid req) ->
  matches (comment_conditions req (List.length pre)) (VObj fs) = true /\
  forall r, positional r (comment_conditions req (List.length pre)) (VObj fs)
            = Some (List.length cpre).
Proof.
  intros Hi La Lc F1 F2 Ci Cu.
  assert (H1 : element_field_is "_id" (VStr (params_commentId req)) (VObj cfs) = true).
  { unfold element_field_is. rewrite Ci. apply value_eqb_refl. }
  assert (H2 : element_field_is "user" (uid req) (VObj cfs) = true).
  { unfold element_field_is. rewrite Cu. apply value_eqb_refl. }
  pose proof (indexed_first_field _ _ cpre (VObj cfs) cpost 0 F1 H1) as Hh1.
  pose proof (indexed_first_field _ _ cpre (VObj cfs) cpost 0 F2 H2) as Hh2.
  rewrite <- (hits_in_comments _ _ fs _ _ efs _ La (nth_error_middle _ _ _) Lc)
    in Hh1.
  rewrite <- (hits_in_comments _ _ fs _ _ efs _ La (nth_error_middle _ _ _) Lc)
    in Hh2.
  cbn [Nat.add] in Hh1, Hh2.
  split.
  - unfold matches, comment_conditions. cbn [forallb]. unfold holds.
    rewrite (hits_own_id _ _ Hi).
    destruct (hits ([Key "answers"; Idx (List.length pre); Key "comments"; Key "_id"],
                    VStr (params_commentId req)) (VObj fs)); [discriminate|].
    destruct (hits ([Key "answers"; Idx (List.length pre); Key "comments"; Key "user"],
                    uid req) (VObj fs)); [discriminate|].
    reflexivity.
  - intros r. unfold positional, comment_conditions. cbn [map].
    rewrite (hits_own_id _ _ Hi), Hh1, Hh2.
    now destruct r.
Qed.

Lemma comment_doc_applies req fs pre efs post cpre cfs cpost :
  lookup "answers" fs = Some (VArr (pre ++ VObj efs :: post)) ->
  lookup "comments" efs = Some (VArr (cpre ++ VObj cfs :: cpost)) ->
  apply_modifiers (Some (List.length cpre)) (comment_doc req (List.length pre))
    (VObj fs)
  = Some (VObj (obj_set "answers"
                  (VArr (pre ++
                         VObj (obj_set "comments"
                                 (VArr (cpre ++
                                        VObj (obj_set "content"
                                                (field "content" (body req)) cfs)
                                        :: cpost)) efs)
                         :: post)) fs)).
Proof.
  intros La Lc. unfold comment_doc, apply_modifiers, apply_modifier.
  cbn [modifier_path alter]. rewrite La. cbn [option_map].
  rewrite nth_error_middle. cbv beta iota zeta. cbn [alter].
  rewrite Lc. cbn [option_map]. rewrite nth_error_middle.
  cbv beta iota zeta. cbn [alter modifier_action option_map].
  now rewrite !set_nth_middle.
Qed.

Lemma updateAnswerComment_hit req st q pre a post ds shown :
  store_up st ->
  filter (matches (by_id (params_id req))) (docs st) = [q] ->
  prop "answers" q = Some (VArr (pre ++ a :: post)) ->
  Forall (fun a => exists s, id_string a = Some s /\ s <> params_answerId req) pre ->
  id_string a = Some (params_answerId req) ->
  Forall (fun a => exists s, id_string a = Some s /\ s <> params_answerId req) post ->
  update_first (rule st) (comment_conditions req (List.length pre))
    (comment_doc req (List.length pre)) (docs st) = Some (ds, 1%nat) ->
  find (matches (by_id (params_id req))) ds = Some shown ->
  updateAnswerComment req st
  = (say (RJson shown) (say (RStatus 200)
       (advance (CFindById (params_id req))
          (set_docs ds
             (advance (CUpdate (comment_conditions req (List.length pre))
                               (comment_doc req (List.length pre)))
                (advance (CFind (by_id (params_id req))) st))))), inr VNull).
Proof.
  intros U Hf Hp Fp Ha Fq N F.
  unfold updateAnswerComment, bind, attempt.
  rewrite (find_all_up _ _ U). unfold by_id in Hf. rewrite Hf.
  cbv beta iota. unfold get_prop. rewrite Hp.
  unfold ret at 1. cbv beta iota. unfold elements, ret at 1. cbv beta iota.
  rewrite (scan_single_hit req pre a post 0 _ ds (store_up_advance _ _ U) Fp Ha Fq N).
  cbv beta iota. cbn [fst snd negb run_callbacks]. unfold ret at 1.
  cbv beta iota. fold (bind (after_update req (inr 1%nat)) (fun _ => ret VNull)).
  unfold bind, after_update. cbn [Nat.eqb].
  rewrite (show_found req _ shown); [reflexivity| |exact F].
  apply store_up_set_docs. now apply store_up_advance, store_up_advance.
Qed.

End OwnComment.

(** X12: under the answer with the given id, when the first comment that has
    the given comment id is also the first comment of the acting user, the
    update of a comment under an answer overwrites the content of that
    comment with the content of the request body and nothing else: the
    comment's user, the other comments, answers, fields and documents are
    kept; the question is re-fetched and returned with status 200. *)
Theorem X12_update_own_answer_comment
    (st : State) (req : Request) (before after : list Value) (fs : Fields)
    (pre post : list Value) (efs : Fields)
    (cpre cpost : list Value) (cfs : Fields) :
  store_up st ->
  docs st = before ++ VObj fs :: after ->
  Forall (fun d => matches (by_id (params_id req)) d = false) before ->
  Forall (fun d => matches (by_id (params_id req)) d = false) after ->
  lookup "_id" fs = Some (VStr (params_id req)) ->
  lookup "answers" fs = Some (VArr (pre ++ VObj efs :: post)) ->
  Forall (fun a => exists s, id_string a = Some s /\ s <> params_answerId req) pre ->
  lookup "_id" efs = Some (VStr (params_answerId req)) ->
  Forall (fun a => exists s, id_string a = Some s /\ s <> params_answerId req) post ->
  lookup "comments" efs = Some (VArr (cpre ++ VObj cfs :: cpost)) ->
  Forall (fun c => element_field_is "_id" (VStr (params_commentId req)) c = false)
         cpre ->
  Forall (fun c => element_field_is "user" (VStr (u_id (user req))) c = false)
         cpre ->
  lookup "_id" cfs = Some (VStr (params_commentId req)) ->
  lookup "user" cfs = Some (VStr (u_id (user req))) ->
  let c' := VObj (obj_set "content" (field "content" (body req)) cfs) in
  let a' := VObj (obj_set "comments" (VArr (cpre ++ c' :: cpost)) efs) in
  let q' := VObj (obj_set "answers" (VArr (pre ++ a' :: post)) fs) in
  docs (fst (updateAnswerComment req st)) = before ++ q' :: after /\
  sent (fst (updateAnswerComment req st)) = sent st ++ [RStatus 200; RJson q'].
Proof.
  intros U D Hb Ha Hi La Fp He Fq Lc F1 F2 Ci Cu c' a' q'.
  destruct (comment_conditions_hit req fs pre efs post cpre cfs cpost
              Hi La Lc F1 F2 Ci Cu) as [Hm Hpos].
  assert (Hf : filter (matches (by_id (params_id req))) (docs st) = [VObj fs]).
  { rewrite D. now apply filter_unique_question. }
  assert (Hp : prop "answers" (VObj fs) = Some (VArr (pre ++ VObj efs :: post))).
  { cbn [prop]. unfold field. now rewrite La. }
  assert (Hu : update_first (rule st) (comment_conditions req (List.length pre))
                 (comment_doc req (List.length pre)) (docs st)
               = Some (before ++ q' :: after, 1%nat)).
  { rewrite D. apply update_first_hit; auto.
    - eapply Forall_impl; [|exact Hb].
      intros d Hd. unfold matches, comment_conditions. cbn [forallb].
      unfold matches, by_id in Hd. cbn [forallb] in Hd.
      rewrite andb_true_r in Hd. now rewrite Hd.
    - rewrite Hpos. now apply comment_doc_applies. }
  assert (Hs : find (matches (by_id (params_id req))) (before ++ q' :: after)
               = Some q').
  { apply find_after_misses; auto.
    apply matches_by_id_intro.
    rewrite lookup_obj_set_other; [assumption|discriminate]. }
  rewrite (updateAnswerComment_hit req st (VObj fs) pre (VObj efs) post _ q'
             U Hf Hp Fp (object_id_string _ _ He) Fq Hu Hs).
  cbn [fst docs sent say advance set_docs].
  rewrite <- !app_assoc. split; reflexivity.
Qed.

(** On the sample data: alice rewrites her comment c2 under answer a1. *)
Lemma X12_update_own_answer_comment_witness :
  docs (fst (updateAnswerComment
               (mkRequest "q1" "a1" "c2" [("content", VStr "taken over")] alice)
               (world LastArrayCondition)))
  = [q1_with [c1; taken_over "c2" "alice"]].
Proof.
  refine (proj1 (X12_update_own_answer_comment
            (world LastArrayCondition)
            (mkRequest "q1" "a1" "c2" [("content", VStr "taken over")] alice)
            [] [] q1_fields [] []
            [("_id", VStr "a1"); ("user", VStr "bob");
             ("content", VStr "answer"); ("comments", VArr [c1; c2])]
            [c1] []
            [("_id", VStr "c2"); ("user", VStr "alice"); ("content", VStr "second")]
            _ eq_refl _ _ eq_refl eq_refl _ eq_refl _ eq_refl _ _ eq_refl eq_refl)).
  - constructor.
  - constructor.
  - constructor.
  - constructor.
  - constructor.
  - repeat constructor.
  - repeat constructor.
Defined.

Section MergeKeeps.

Lemma keys_obj_set_keeps k k' v fs :
  In k (keys fs) -> In k (keys (obj_set k' v fs)).
Proof.
  induction fs as [|[k0 x] r IH]; simpl; [tauto|].
  destruct (String.eqb k' k0); simpl; tauto.
Qed.

Lemma keys_merge_fields_keeps k sfs acc :
  In k (keys acc) -> In k (keys (merge_fields sfs acc)).
Proof.
  revert acc.
  induction sfs as [|[k' sv] r IH]; intros acc H; simpl; auto.
  apply IH. now apply keys_obj_set_keeps.
Qed.

Lemma merge_array dst sl :
  merge dst (VArr sl)
  = VArr (merge_items sl (match dst with VArr d => d | _ => [] end)).
Proof. reflexivity. Qed.

Lemma merge_items_length sl dl :
  List.length (merge_items sl dl) = Nat.max (List.length dl) (List.length sl).
Proof.
  revert dl.
  induction sl as [|s r IH]; intros [|d dr]; simpl; auto.
Qed.

Lemma merge_items_tail sl dl i :
  List.length sl <= i -> nth_error (merge_items sl dl) i = nth_error dl i.
Proof.
  revert dl i.
  induction sl as [|s r IH]; intros dl i H; simpl in *; auto.
  destruct i as [|i]; [lia|].
  destruct dl as [|d dr]; simpl.
  - rewrite (IH [] i) by lia. now destruct i.
  - apply IH. lia.
Qed.

End MergeKeeps.

(** X13: an owner's update cannot take a field away from a question: every
    field name of the stored document is a field name of the document that is
    saved and returned, whatever the payload (a null in the payload sets the
    field to null, it does not remove it). *)
Theorem X13_update_removes_no_field
    (st : State) (req : Request) (fs : Fields) :
  store_up st ->
  find (matches (by_id (params_id req))) (docs st) = Some (VObj fs) ->
  owner_of (VObj fs) = Some (u_id (user req)) ->
  exists saved,
    calls (fst (update req st))
    = calls st ++ [CFindById (params_id req); CSave (VObj saved)] /\
    sent (fst (update req st)) = sent st ++ [RStatus 200; RJson (VObj saved)] /\
    (forall k, In k (keys fs) -> In k (keys saved)) /\
    (forall k, lookup k (strip_id (body req)) = Some VNull ->
               NoDup (keys (body req)) -> lookup k saved = Some VNull).
Proof.
  intros U F O.
  exists (merge_fields (strip_id (body req)) fs).
  rewrite (update_by_owner req st fs U F O).
  cbn [fst calls sent say set_docs advance].
  rewrite <- !app_assoc. cbn [app].
  split; [reflexivity|]. split; [reflexivity|]. split.
  - intros k. apply keys_merge_fields_keeps.
  - intros k L ND.
    rewrite (merge_fields_provided k VNull) by auto using NoDup_keys_strip_id.
    reflexivity.
Qed.

(** On the sample data: bob sends null for the title of his question. *)
Lemma X13_update_removes_no_field_witness :
  exists saved,
    sent (fst (update (request bob [("title", VNull)]) (world FirstArrayCondition)))
    = [RStatus 200; RJson (VObj saved)] /\
    In "title" (keys saved) /\ lookup "title" saved = Some VNull.
Proof.
  destruct (X13_update_removes_no_field (world FirstArrayCondition)
              (request bob [("title", VNull)]) q1_fields)
    as (saved & _ & Hs & Hk & Hn).
  - constructor.
  - reflexivity.
  - reflexivity.
  - exists saved. split; [exact Hs|]. split.
    + apply Hk. simpl. tauto.
    + apply Hn; [reflexivity|].
      repeat constructor; simpl; intuition discriminate.
Defined.

(** X14: an owner's update cannot shorten a stored list: when the payload
    gives an array for a field that holds an array, the saved array is as
    long as the longer of the two, and beyond the length of the supplied
    array it holds the stored elements; an empty array in the payload leaves
    the stored list as it is. *)
Theorem X14_update_never_shortens_a_list
    (st : State) (req : Request) (fs : Fields)
    (k : string) (stored supplied : list Value) :
  store_up st ->
  find (matches (by_id (params_id req))) (docs st) = Some (VObj fs) ->
  owner_of (VObj fs) = Some (u_id (user req)) ->
  NoDup (keys (body req)) ->
  lookup k fs = Some (VArr stored) ->
  lookup k (strip_id (body req)) = Some (VArr supplied) ->
  exists saved l,
    calls (fst (update req st))
    = calls st ++ [CFindById (params_id req); CSave (VObj saved)] /\
    lookup k saved = Some (VArr l) /\
    List.length l = Nat.max (List.length stored) (List.length supplied) /\
    (forall i, List.length supplied <= i -> nth_error l i = nth_error stored i) /\
    (supplied = [] -> l = stored).
Proof.
  intros U F O ND Ls Lp.
  exists (merge_fields (strip_id (body req)) fs), (merge_items supplied stored).
  rewrite (update_by_owner req st fs U F O).
  cbn [fst calls sent say set_docs advance].
  rewrite <- !app_assoc. cbn [app].
  split; [reflexivity|].
  split.
  - rewrite (merge_fields_provided k (VArr supplied))
      by auto using NoDup_keys_strip_id.
    unfold field. now rewrite Ls, merge_array.
  - split; [apply merge_items_length|].
    split; [intros i; apply merge_items_tail|].
    now intros ->.
Qed.

(** On the sample data: bob sends an empty answer list for his question. *)
Lemma X14_update_never_shortens_a_list_witness :
  exists saved,
    calls (fst (update (request bob [("answers", VArr [])])
                       (world FirstArrayCondition)))
    = [CFindById "q1"; CSave (VObj saved)] /\
    lookup "answers" saved = Some (VArr [a1]).
Proof.
  destruct (X14_update_never_shortens_a_list (world FirstArrayCondition)
              (request bob [("answers", VArr [])]) q1_fields
              "answers" [a1] [])
    as (saved & l & Hc & Hl & _ & _ & He).
  - constructor.
  - reflexivity.
  - reflexivity.
  - repeat constructor; simpl; intuition discriminate.
  - reflexivity.
  - reflexivity.
  - exists saved. split; [exact Hc|]. now rewrite Hl, (He eq_refl).
Defined.

(** X15: when the collection holds at most 20 questions, the list operation
    returns every one of them, newest first. *)
Theorem X15_index_returns_all_of_a_small_collection
    (st : State) (req : Request) :
  store_up st ->
  List.length (docs st) <= 20 ->
  exists l,
    sent (fst (index req st)) = sent st ++ [RStatus 200; RJson (VArr l)] /\
    Permutation l (docs st) /\
    StronglySorted newer_or_same l.
Proof.
  intros U H.
  exists (sort_desc (docs st)).
  rewrite (index_up req _ U). cbn [fst sent say advance].
  rewrite firstn_all2 by (rewrite (Permutation_length (sort_desc_perm _)); lia).
  rewrite <- app_assoc.
  repeat split; auto using sort_desc_perm, sort_desc_sorted.
Qed.

(** On the sample data: the list of a collection of one. *)
Lemma X15_index_returns_all_of_a_small_collection_witness :
  exists l,
    sent (fst (index (request alice []) (world FirstArrayCondition)))
    = [RStatus 200; RJson (VArr l)] /\
    Permutation l [q1].
Proof.
  destruct (X15_index_returns_all_of_a_small_collection
              (world FirstArrayCondition) (request alice []))
    as (l & Hs & Hp & _).
  - constructor.
  - simpl. lia.
  - exists l. split; [exact Hs | exact Hp].
Defined.
